(** * Secondary indexing: projector feed engine and index placement planner

  A shallow embedding of the Go sources
    - secondary/planner/proxy.go          (package common: index definitions),
    - secondary/projector/client/client.go (admin client, KV data path,
                                            plan / rebalance orchestrator),
  together with the properties of these functions that the specification
  states.  Go's [int], [uint64] and [time.Duration] are 64-bit machine
  integers (amd64 / arm64 builds); they are modelled as [Z] with the
  wrap-around written out.  Go maps are [gmap]s, slices are lists. *)

From Stdlib Require Import ZArith String Ascii List Bool Lia DecimalString.
From Stdlib Require DecimalZ.
From stdpp Require Import base gmap strings list fin_maps.

Local Open Scope Z_scope.

(** ** Machine integers *)

Module GoInt.

Definition max_int : Z := 2 ^ 63 - 1.
Definition min_int : Z := - 2 ^ 63.
Definition max_uint64 : Z := 2 ^ 64 - 1.

(** Two's-complement wrap of a mathematical integer into [int] / [int64]. *)
Definition wrap (z : Z) : Z := (z + 2 ^ 63) mod 2 ^ 64 - 2 ^ 63.

(** [int(x)] for [x : uint64]: same bits, read as signed. *)
Definition int_of_uint64 (u : Z) : Z := wrap u.

Definition in_int (z : Z) : Prop := min_int <= z <= max_int.
Definition in_uint64 (z : Z) : Prop := 0 <= z <= max_uint64.

End GoInt.

(** ** Package common (proxy.go) *)

Module Common.

(** [type IndexDefn struct], proxy.go:780.  The identifier types
    ([IndexDefnId], [IndexType], [ExprType], [PartitionScheme]) are
    [uint64] and [string] underneath. *)
Record IndexDefn := mkIndexDefn {
  DefnId          : Z;
  Name            : string;
  Using           : string;
  Bucket          : string;
  BucketUUID      : string;
  IsPrimary       : bool;
  SecExprs        : list string;
  ExprType        : string;
  PartitionScheme : string;
  PartitionKey    : string;
  WhereExpr       : string;
  Deferred        : bool;
  Immutable       : bool;
  Nodes           : list string;
  IsArrayIndex    : bool
}.

(** The zero value [IndexDefn{}]. *)
Definition zero_IndexDefn : IndexDefn :=
  mkIndexDefn 0 "" "" "" "" false [] "" "" "" "" false false [] false.

Definition set_Using (u : string) (d : IndexDefn) : IndexDefn :=
  mkIndexDefn (DefnId d) (Name d) u (Bucket d) (BucketUUID d) (IsPrimary d)
    (SecExprs d) (ExprType d) (PartitionScheme d) (PartitionKey d)
    (WhereExpr d) (Deferred d) (Immutable d) (Nodes d) (IsArrayIndex d).

(** Go's [!=] on strings and on booleans. *)
Definition str_ne (a b : string) : bool := negb (String.eqb a b).
Definition bool_ne (a b : bool) : bool := negb (Bool.eqb a b).

(** The inner [for _, s2 := range d2.SecExprs] of [IsEquivalentIndex]:
    [false] when the body executed [return false], [true] when the loop
    ran to its end. *)
Fixpoint secExprs_inner (s1 : string) (l2 : list string) : bool :=
  match l2 with
  | [] => true
  | s2 :: l2' => if str_ne s1 s2 then false else secExprs_inner s1 l2'
  end.

(** The outer [for _, s1 := range d1.SecExprs]. *)
Fixpoint secExprs_outer (l1 l2 : list string) : bool :=
  match l1 with
  | [] => true
  | s1 :: l1' => if secExprs_inner s1 l2 then secExprs_outer l1' l2 else false
  end.

(** [func IsEquivalentIndex(d1, d2 *IndexDefn) bool], proxy.go:965.
    The first disjunct compares [d1.Using] with [d1.Using], as the source
    does. *)
Definition IsEquivalentIndex (d1 d2 : IndexDefn) : bool :=
  if str_ne (Using d1) (Using d1)
     || str_ne (Bucket d1) (Bucket d2)
     || bool_ne (IsPrimary d1) (IsPrimary d2)
     || str_ne (ExprType d1) (ExprType d2)
     || str_ne (PartitionScheme d1) (PartitionScheme d2)
     || str_ne (PartitionKey d1) (PartitionKey d2)
     || str_ne (WhereExpr d1) (WhereExpr d2)
  then false
  else secExprs_outer (SecExprs d1) (SecExprs d2).

(** A definition with two distinct secondary expressions. *)
Definition defn_two_keys : IndexDefn :=
  mkIndexDefn 1 "idx" "memdb" "default" "" false ["a"; "b"] "N1QL" "SINGLE"
    "" "" false false [] false.

End Common.

(** ** Admin client: the retry wrapper (client.go:76-106, 591-615) *)

Module Client.

Import GoInt.

(** [type Client struct]: the configuration fields.  The transport handle
    [ap] plays no part in [withRetry]; the calls made through it are the
    closure [fn] below. *)
Record Client := mkClient {
  adminport     : string;
  maxVbuckets   : Z;
  retryInterval : Z;
  maxRetries    : Z;
  expBackoff    : Z
}.

(** A Go [error]: [None] is [nil], [Some msg] an error whose [Error()] is
    [msg]. *)
Definition error := option string.

(** [strings.Contains(s, substr)]. *)
Fixpoint Contains (s substr : string) : bool :=
  if String.prefix substr s then true
  else match s with
       | EmptyString => false
       | String _ s' => Contains s' substr
       end.

Definition connection_refused (msg : string) : bool :=
  Contains msg "connection refused".

(** [time.Millisecond], in nanoseconds. *)
Definition Millisecond : Z := 1000000.

(** [time.Duration(interval) * time.Millisecond]: the argument handed to
    [time.Sleep], an [int64] count of nanoseconds. *)
Definition sleep_duration (interval : Z) : Z := wrap (interval * Millisecond).

(** [interval *= client.expBackoff], guarded by [client.expBackoff > 0]. *)
Definition backoff (c : Client) (interval : Z) : Z :=
  if 0 <? expBackoff c then wrap (interval * expBackoff c) else interval.

(** The local variables of [withRetry] together with what the loop has done
    so far: the number of calls of [fn] and the durations slept. *)
Record loop_state := mkLoop {
  calls    : nat;
  interval : Z;
  retries  : Z;          (* the local [maxRetries] *)
  sleeps   : list Z
}.

Inductive outcome :=
| Returned (err : error) (ncalls : nat) (slept : list Z)
| Running (st : loop_state).

(** The [maxRetries > 0] block: the decremented counter, and whether
    [return err] was taken.  The counter is decremented only while it is
    positive, so the subtraction cannot overflow. *)
Definition count_down (m : Z) : Z * bool :=
  if 0 <? m then (m - 1, (m - 1 =? 0)) else (m, false).

(** The [for] loop of [withRetry].  [fn k] is the error returned by the
    closure on its [k]-th invocation (from 0); [fuel] bounds the number of
    iterations executed. *)
Fixpoint withRetry_loop (c : Client) (fn : nat -> error) (fuel : nat)
    (st : loop_state) : outcome :=
  match fuel with
  | O => Running st
  | S fuel' =>
      match fn (calls st) with
      | None => Returned None (S (calls st)) (sleeps st)
      | Some msg =>
          if negb (connection_refused msg) then
            Returned (Some msg) (S (calls st)) (sleeps st)
          else if interval st <=? 0 then
            Returned (Some msg) (S (calls st)) (sleeps st)
          else
            let '(m, expired) := count_down (retries st) in
            if expired then Returned (Some msg) (S (calls st)) (sleeps st)
            else
              withRetry_loop c fn fuel'
                (mkLoop (S (calls st)) (backoff c (interval st)) m
                        (sleeps st ++ [sleep_duration (interval st)]))
      end
  end.

Definition init (c : Client) : loop_state :=
  mkLoop 0 (retryInterval c) (maxRetries c) [].

(** [func (client *Client) withRetry(fn func() error) (err error)]. *)
Definition withRetry (c : Client) (fn : nat -> error) (fuel : nat) : outcome :=
  withRetry_loop c fn fuel (init c).

Definition attempts (o : outcome) : nat :=
  match o with
  | Returned _ n _ => n
  | Running st => calls st
  end.

Definition has_returned (o : outcome) : Prop :=
  match o with Returned _ _ _ => True | Running _ => False end.

(** The interval in force at the [k]-th attempt. *)
Fixpoint interval_at (c : Client) (k : nat) : Z :=
  match k with
  | O => retryInterval c
  | S k' => backoff c (interval_at c k')
  end.

(** The durations slept before the [k]-th attempt. *)
Fixpoint sleeps_before (c : Client) (k : nat) : list Z :=
  match k with
  | O => []
  | S k' => sleeps_before c k' ++ [sleep_duration (interval_at c k')]
  end.

Definition refused (e : error) : Prop :=
  exists msg, e = Some msg /\ connection_refused msg = true.

(** The state reached after one more retry. *)
Definition retried (c : Client) (st : loop_state) : loop_state :=
  mkLoop (S (calls st)) (backoff c (interval st)) (fst (count_down (retries st)))
         (sleeps st ++ [sleep_duration (interval st)]).

(** Scenario S2 of the specification: 100 ms, three attempts, doubling. *)
Definition client_S2 : Client := mkClient "localhost:9999" 1024 100 3 2.

Definition fails_twice (k : nat) : error :=
  match k with
  | 0%nat | 1%nat => Some "connection refused"
  | _ => None
  end.

Definition always_refused (_ : nat) : error := Some "connection refused".

(** A configuration without attempt limit whose back-off multiplier makes
    the 64-bit interval wrap: 1, 2^62, then 2^124 mod 2^64 = 0. *)
Definition client_overflow : Client := mkClient "localhost:9999" 1024 1 0 (2 ^ 62).

(** No attempt limit and no back-off. *)
Definition client_forever : Client := mkClient "localhost:9999" 1024 100 0 0.

End Client.

(** ** [strconv] *)

Module Strconv.

(** [strconv.Itoa], and [%v] of an integer in [fmt.Sprintf]. *)
Definition Itoa (z : Z) : string := DecimalString.NilZero.string_of_int (Z.to_int z).

End Strconv.

(** ** KV data path (client.go:615-910, package projector) *)

Module Projector.

Definition error := option string.

(** What the data path takes from other packages: the engine, endpoint and
    configuration values it stores and hands on, the restart timestamp
    [protobuf.TsVbuuid] with its methods [SeqnoFor] and [Union], and
    [FailoverLog.Latest] of the memcached client. *)
Class Externals := {
  Engine : Type;
  RouterEndpoint : Type;
  Config : Type;
  TsVbuuid : Type;
  SeqnoFor : TsVbuuid -> Z -> Z * error;
  Union : TsVbuuid -> TsVbuuid -> TsVbuuid;
  Latest : option (list (Z * Z)) -> Z * Z * error
}.

(** [mcd.CommandCode] and [mcd.Status], as far as [scatterMutation]
    distinguishes them. *)
Inductive Opcode :=
| UPR_STREAMREQ | UPR_STREAMEND | UPR_MUTATION | UPR_DELETION
| UPR_SNAPSHOT | UPR_EXPIRATION | UPR_OTHER (code : Z).

Inductive Status := SUCCESS | ROLLBACK | STATUS_OTHER (code : Z).

Definition is_SUCCESS (s : Status) : bool :=
  match s with SUCCESS => true | _ => false end.

Definition is_ROLLBACK (s : Status) : bool :=
  match s with ROLLBACK => true | _ => false end.

(** [mc.UprEvent]: the fields read or written by the data path.
    [FailoverLog] is a pointer, [None] being [nil]. *)
Record UprEvent := mkUprEvent {
  ev_Opcode      : Opcode;
  ev_Status      : Status;
  ev_VBucket     : Z;
  ev_VBuuid      : Z;
  ev_Seqno       : Z;
  ev_FailoverLog : option (list (Z * Z))
}.

Definition set_VBuuid (v : Z) (m : UprEvent) : UprEvent :=
  mkUprEvent (ev_Opcode m) (ev_Status m) (ev_VBucket m) v (ev_Seqno m)
             (ev_FailoverLog m).

Definition set_Seqno (s : Z) (m : UprEvent) : UprEvent :=
  mkUprEvent (ev_Opcode m) (ev_Status m) (ev_VBucket m) (ev_VBuuid m) s
             (ev_FailoverLog m).

(** [&mc.UprEvent{Opcode: mcd.UPR_STREAMEND, Status: mcd.SUCCESS}]. *)
Definition synthetic_StreamEnd : UprEvent :=
  mkUprEvent UPR_STREAMEND SUCCESS 0 0 0 None.

Section DataPath.

Context `{Externals}.

(** The calls a data path makes on a vbucket routine. *)
Inductive VrCall :=
| VrAddEngines (engines : gmap Z Engine) (endpoints : gmap string RouterEndpoint)
| VrDeleteEngines (engineKeys : list Z)
| VrEvent (m : UprEvent)
| VrGetStatistics.

(** Modelled from the spec: [VbucketRoutine] and [NewVbucketRoutine] live in
    a file that is not part of the sources at hand.  A routine is a task
    owning its state and driven by messages (specification, 4.A and 5); it
    is represented by the arguments of its constructor and the calls made
    on it so far, oldest first. *)
Record VbucketRoutine := mkVbucketRoutine {
  vr_topic  : string;
  vr_bucket : string;
  vr_kvaddr : string;
  vr_vbno   : Z;
  vr_vbuuid : Z;
  vr_seqno  : Z;
  vr_config : Config;
  vr_calls  : list VrCall
}.

Definition NewVbucketRoutine (topic bucket kvaddr : string) (vbno vbuuid seqno : Z)
    (config : Config) : VbucketRoutine :=
  mkVbucketRoutine topic bucket kvaddr vbno vbuuid seqno config [].

Definition vr_call (call : VrCall) (vr : VbucketRoutine) : VbucketRoutine :=
  mkVbucketRoutine (vr_topic vr) (vr_bucket vr) (vr_kvaddr vr) (vr_vbno vr)
    (vr_vbuuid vr) (vr_seqno vr) (vr_config vr) (vr_calls vr ++ [call]).

(** The back-channel to the feed. *)
Inductive FeedPost :=
| PostStreamRequest (bucket kvaddr : string) (m : UprEvent)
| PostStreamEnd (bucket kvaddr : string) (m : UprEvent)
| PostFinKVdata (bucket kvaddr : string).

(** [type KVData struct].  [feed] is represented by the configuration read
    from it and by the posts made to it; the channels [sbch] and [finch]
    appear as the inputs of [runScatter] and as [finch_closed].  [ended]
    is not a field of the struct: it keeps the routines that were sent their
    stream end and taken out of [vrs], so that what they received stays
    visible. *)
Record KVData := mkKVData {
  topic        : string;
  bucket       : string;
  kvaddr       : string;
  vrs          : gmap Z VbucketRoutine;
  engines      : gmap Z Engine;
  endpoints    : gmap string RouterEndpoint;
  feed_config  : Config;
  feed_posts   : list FeedPost;
  finch_closed : bool;
  ended        : list VbucketRoutine
}.

Definition set_vrs (v : gmap Z VbucketRoutine) (k : KVData) : KVData :=
  mkKVData (topic k) (bucket k) (kvaddr k) v (engines k) (endpoints k)
           (feed_config k) (feed_posts k) (finch_closed k) (ended k).

Definition set_engines (e : gmap Z Engine) (k : KVData) : KVData :=
  mkKVData (topic k) (bucket k) (kvaddr k) (vrs k) e (endpoints k)
           (feed_config k) (feed_posts k) (finch_closed k) (ended k).

Definition set_endpoints (e : gmap string RouterEndpoint) (k : KVData) : KVData :=
  mkKVData (topic k) (bucket k) (kvaddr k) (vrs k) (engines k) e
           (feed_config k) (feed_posts k) (finch_closed k) (ended k).

Definition post (p : FeedPost) (k : KVData) : KVData :=
  mkKVData (topic k) (bucket k) (kvaddr k) (vrs k) (engines k) (endpoints k)
           (feed_config k) (feed_posts k ++ [p]) (finch_closed k) (ended k).

Definition retire (vr : VbucketRoutine) (k : KVData) : KVData :=
  mkKVData (topic k) (bucket k) (kvaddr k) (vrs k) (engines k) (endpoints k)
           (feed_config k) (feed_posts k) (finch_closed k) (ended k ++ [vr]).

Definition close_finch (k : KVData) : KVData :=
  mkKVData (topic k) (bucket k) (kvaddr k) (vrs k) (engines k) (endpoints k)
           (feed_config k) (feed_posts k) true (ended k).

(** Capacity of the server channel [sbch]. *)
Definition sbch_capacity : nat := 16.

(** [NewKVData]: the maps are fresh, the given engines and endpoints are
    copied into them, and [runScatter] is started on this value. *)
Definition NewKVData (feed_topic : string) (config : Config) (bucket kvaddr : string)
    (engines : gmap Z Engine) (endpoints : gmap string RouterEndpoint) : KVData :=
  mkKVData feed_topic bucket kvaddr ∅ (engines ∪ ∅) (endpoints ∪ ∅) config [] false [].

(** *** Control commands *)

Definition kvCmdAddEngines : Z := 1.
Definition kvCmdDelEngines : Z := 2.
Definition kvCmdTs : Z := 3.
Definition kvCmdGetStats : Z := 4.
Definition kvCmdClose : Z := 5.

(** The payload sent on a reply channel, [[]interface{}{...}]. *)
Inductive Reply :=
| ReplyNil
| ReplyStats (events : Z) (vbuckets : gmap string VbucketRoutine).

(** An element of a command message [[]interface{}].  A reply channel is
    named by a number. *)
Inductive iface :=
| INil
| IByte (b : Z)
| IEngines (m : gmap Z Engine)
| IEndpoints (m : gmap string RouterEndpoint)
| IKeys (l : list Z)
| ITs (ts : TsVbuuid)
| IChan (respch : nat).

(** The messages built by the five synchronous calls of [KVData]
    (client.go:703-742); [respch] is the channel each of them makes. *)
Definition AddEngines_cmd (engines : gmap Z Engine)
    (endpoints : gmap string RouterEndpoint) (respch : nat) : list iface :=
  [IByte kvCmdAddEngines; IEngines engines; IEndpoints endpoints; IChan respch].

Definition DeleteEngines_cmd (engineKeys : list Z) (respch : nat) : list iface :=
  [IByte kvCmdDelEngines; IKeys engineKeys; IChan respch].

Definition UpdateTs_cmd (ts : TsVbuuid) (respch : nat) : list iface :=
  [IByte kvCmdTs; ITs ts].

Definition GetStatistics_cmd (respch : nat) : list iface :=
  [IByte kvCmdGetStats; IChan respch].

Definition Close_cmd (respch : nat) : list iface :=
  [IByte kvCmdClose; IChan respch].

(** A computation that may panic. *)
Inductive outcome (A : Type) :=
| Done (a : A)
| Panic (reason : string).
Arguments Done {A} a.
Arguments Panic {A} reason.

(** [msg[i].(T)]: index out of range and a failed type assertion both
    panic. *)
Definition msg_byte (msg : list iface) (i : nat) : outcome Z :=
  match msg !! i with
  | None => Panic "index out of range"
  | Some (IByte b) => Done b
  | Some _ => Panic "interface conversion"
  end.

Definition msg_chan (msg : list iface) (i : nat) : outcome nat :=
  match msg !! i with
  | None => Panic "index out of range"
  | Some (IChan c) => Done c
  | Some _ => Panic "interface conversion"
  end.

Definition msg_keys (msg : list iface) (i : nat) : outcome (list Z) :=
  match msg !! i with
  | None => Panic "index out of range"
  | Some (IKeys l) => Done l
  | Some _ => Panic "interface conversion"
  end.

Definition msg_ts (msg : list iface) (i : nat) : outcome TsVbuuid :=
  match msg !! i with
  | None => Panic "index out of range"
  | Some (ITs t) => Done t
  | Some _ => Panic "interface conversion"
  end.

(** [if msg[i] != nil { ... msg[i].(map[uint64]*Engine) ... }]: the map to
    merge, empty when the element is [nil]. *)
Definition msg_engines (msg : list iface) (i : nat) : outcome (gmap Z Engine) :=
  match msg !! i with
  | None => Panic "index out of range"
  | Some INil => Done ∅
  | Some (IEngines m) => Done m
  | Some _ => Panic "interface conversion"
  end.

Definition msg_endpoints (msg : list iface) (i : nat)
    : outcome (gmap string RouterEndpoint) :=
  match msg !! i with
  | None => Panic "index out of range"
  | Some INil => Done ∅
  | Some (IEndpoints m) => Done m
  | Some _ => Panic "interface conversion"
  end.

(** The state of the [runScatter] goroutine: the data path, the local [ts]
    and [eventCount], and the replies sent so far, oldest first. *)
Record Scatter := mkScatter {
  kvdata     : KVData;
  ts         : TsVbuuid;
  eventCount : Z;
  replies    : list (nat * Reply)
}.

Definition send_reply (respch : nat) (r : Reply) (s : Scatter) : Scatter :=
  mkScatter (kvdata s) (ts s) (eventCount s) (replies s ++ [(respch, r)]).

Definition with_kvdata (k : KVData) (s : Scatter) : Scatter :=
  mkScatter k (ts s) (eventCount s) (replies s).

Definition with_ts (t : TsVbuuid) (s : Scatter) : Scatter :=
  mkScatter (kvdata s) t (eventCount s) (replies s).

(** [for _, vr := range kvdata.vrs { vr.call(...) }]. *)
Definition broadcast (call : VrCall) (k : KVData) : KVData :=
  set_vrs (vr_call call <$> vrs k) k.

(** [for _, engineKey := range engineKeys { delete(kvdata.engines, engineKey) }]. *)
Definition delete_engines (keys : list Z) (e : gmap Z Engine) : gmap Z Engine :=
  foldl (fun m key => delete key m) e keys.

(** What one iteration of the [select] loop does next. *)
Inductive step_result :=
| Continue (s : Scatter)
| Break (s : Scatter)
| Crash (s : Scatter) (reason : string).

(** [case msg := <-kvdata.sbch], client.go:778-830. *)
Definition handle_command (msg : list iface) (s : Scatter) : step_result :=
  match msg_byte msg 0 with
  | Panic r => Crash s r
  | Done cmd =>
    if cmd =? kvCmdAddEngines then
      match msg_chan msg 3 with
      | Panic r => Crash s r
      | Done respch =>
        match msg_engines msg 1 with
        | Panic r => Crash s r
        | Done es =>
          let k1 := set_engines (es ∪ engines (kvdata s)) (kvdata s) in
          match msg_endpoints msg 2 with
          | Panic r => Crash (with_kvdata k1 s) r
          | Done ps =>
            let k2 := set_endpoints (ps ∪ endpoints k1) k1 in
            let k3 := broadcast (VrAddEngines (engines k2) (endpoints k2)) k2 in
            Continue (send_reply respch ReplyNil (with_kvdata k3 s))
          end
        end
      end
    else if cmd =? kvCmdDelEngines then
      match msg_keys msg 1 with
      | Panic r => Crash s r
      | Done engineKeys =>
        match msg_chan msg 2 with
        | Panic r => Crash s r
        | Done respch =>
          let k1 := broadcast (VrDeleteEngines engineKeys) (kvdata s) in
          let k2 := set_engines (delete_engines engineKeys (engines k1)) k1 in
          Continue (send_reply respch ReplyNil (with_kvdata k2 s))
        end
      end
    else if cmd =? kvCmdTs then
      match msg_ts msg 1 with
      | Panic r => Crash s r
      | Done t =>
        let s1 := with_ts (Union (ts s) t) s in
        match msg_chan msg 2 with
        | Panic r => Crash s1 r
        | Done respch => Continue (send_reply respch ReplyNil s1)
        end
      end
    else if cmd =? kvCmdGetStats then
      match msg_chan msg 1 with
      | Panic r => Crash s r
      | Done respch =>
        let k1 := broadcast VrGetStatistics (kvdata s) in
        let statVbuckets := kmap Strconv.Itoa (vrs (kvdata s)) in
        Continue (send_reply respch (ReplyStats 0 statVbuckets) (with_kvdata k1 s))
      end
    else if cmd =? kvCmdClose then
      match msg_chan msg 1 with
      | Panic r => Crash s r
      | Done respch => Break (send_reply respch ReplyNil s)
      end
    else Continue s
  end.

(** [func (kvdata *KVData) scatterMutation(m, ts)], client.go:835-893.
    The log lines are left out.  The event is a pointer: the routine and the
    feed receive it as the [UPR_STREAMREQ] branch has updated it. *)
Definition scatterMutation (m : UprEvent) (ts : TsVbuuid) (k : KVData)
    : outcome KVData :=
  let vbno := ev_VBucket m in
  match ev_Opcode m with
  | UPR_STREAMREQ =>
      if is_ROLLBACK (ev_Status m) then
        Done (post (PostStreamRequest (bucket k) (kvaddr k) m) k)
      else if negb (is_SUCCESS (ev_Status m)) then
        Done (post (PostStreamRequest (bucket k) (kvaddr k) m) k)
      else
        match vrs k !! vbno with
        | Some _ => (* duplicate OpStreamRequest *)
            Done (post (PostStreamRequest (bucket k) (kvaddr k) m) k)
        | None =>
            match Latest (ev_FailoverLog m) with
            | (_, _, Some err) => Panic err
            | (vbuuid, _, None) =>
                let m1 := set_VBuuid vbuuid m in
                let m2 := set_Seqno (fst (SeqnoFor ts vbno)) m1 in
                let vr := NewVbucketRoutine (topic k) (bucket k) (kvaddr k) vbno
                            (ev_VBuuid m2) (ev_Seqno m2) (feed_config k) in
                let vr := vr_call (VrAddEngines (engines k) (endpoints k)) vr in
                let vr := vr_call (VrEvent m2) vr in
                let k1 := set_vrs (<[vbno := vr]> (vrs k)) k in
                Done (post (PostStreamRequest (bucket k) (kvaddr k) m2) k1)
            end
        end
  | UPR_STREAMEND =>
      match vrs k !! vbno with
      | None => (* duplicate OpStreamEnd *)
          Done (post (PostStreamEnd (bucket k) (kvaddr k) m) k)
      | Some vr =>
          if negb (is_SUCCESS (ev_Status m)) then
            Done (post (PostStreamEnd (bucket k) (kvaddr k) m) k)
          else
            (* [vr.Event(m)], then [delete(kvdata.vrs, vbno)] *)
            let k1 := retire (vr_call (VrEvent m) vr) k in
            let k2 := set_vrs (delete vbno (vrs k1)) k1 in
            Done (post (PostStreamEnd (bucket k) (kvaddr k) m) k2)
      end
  | UPR_MUTATION | UPR_DELETION | UPR_SNAPSHOT | UPR_EXPIRATION =>
      match vrs k !! vbno with
      | Some vr => Done (set_vrs (<[vbno := vr_call (VrEvent m) vr]> (vrs k)) k)
      | None => Done k
      end
  | UPR_OTHER _ => Done k
  end.

(** [func (kvdata *KVData) publishStreamEnd()]. *)
Definition publishStreamEnd (k : KVData) : KVData :=
  broadcast (VrEvent synthetic_StreamEnd) k.

(** What the [select] of one loop iteration receives: an upstream event,
    the closing of the upstream channel ([ok == false]), or a command. *)
Inductive select_case :=
| Mutch (m : UprEvent)
| MutchClosed
| Sbch (msg : list iface).

(** One iteration of the [for { select { ... } }] loop of [runScatter]. *)
Definition scatter_step (c : select_case) (s : Scatter) : step_result :=
  match c with
  | MutchClosed => Break s
  | Mutch m =>
      match scatterMutation m (ts s) (kvdata s) with
      | Panic r => Crash s r
      | Done k =>
          let s1 := mkScatter k (ts s) (eventCount s + 1) (replies s) in
          if decide (size (vrs k) = 0%nat) then Break s1 else Continue s1
      end
  | Sbch msg => handle_command msg s
  end.

(** Why, and in which state, the loop was left; [Waiting] when all the given
    inputs have been consumed and the goroutine is back in [select]. *)
Inductive loop_result :=
| Exited (s : Scatter) (unread : list select_case)
| Crashed (s : Scatter) (reason : string) (unread : list select_case)
| Waiting (s : Scatter).

Fixpoint scatter_loop (inputs : list select_case) (s : Scatter) : loop_result :=
  match inputs with
  | [] => Waiting s
  | c :: rest =>
      match scatter_step c s with
      | Continue s1 => scatter_loop rest s1
      | Break s1 => Exited s1 rest
      | Crash s1 r => Crashed s1 r rest
      end
  end.

(** The deferred function of [runScatter]: after [recover], publish the
    stream end to the surviving routines, tell the feed, close [finch]. *)
Definition deferred (k : KVData) : KVData :=
  let k1 := publishStreamEnd k in
  close_finch (post (PostFinKVdata (bucket k1) (kvaddr k1)) k1).

Definition state_of (r : loop_result) : Scatter :=
  match r with
  | Exited s _ | Crashed s _ _ | Waiting s => s
  end.

Definition unread (r : loop_result) : list select_case :=
  match r with
  | Exited _ rest | Crashed _ _ rest => rest
  | Waiting _ => []
  end.

Definition has_exited (r : loop_result) : bool :=
  match r with
  | Exited _ _ | Crashed _ _ _ => true
  | Waiting _ => false
  end.

(** [func (kvdata *KVData) runScatter(ts, mutch)]: the loop over the given
    schedule of inputs, followed by the deferred function once the loop is
    left. *)
Definition runScatter (ts : TsVbuuid) (inputs : list select_case) (k : KVData)
    : loop_result :=
  match scatter_loop inputs (mkScatter k ts 0 []) with
  | Exited s rest => Exited (with_kvdata (deferred (kvdata s)) s) rest
  | Crashed s r rest => Crashed (with_kvdata (deferred (kvdata s)) s) r rest
  | Waiting s => Waiting s
  end.

(** The routines of the map that serve vbucket [v]. *)
Definition routines_for (v : Z) (k : KVData) : list VbucketRoutine :=
  filter (fun vr => vr_vbno vr = v) (snd <$> map_to_list (vrs k)).

(** The replies sent on channel [respch]. *)
Definition replies_on (respch : nat) (s : Scatter) : list Reply :=
  snd <$> filter (fun r => fst r = respch) (replies s).

Definition is_StreamRequest_SUCCESS (m : UprEvent) : Prop :=
  ev_Opcode m = UPR_STREAMREQ /\ ev_Status m = SUCCESS.

Definition is_StreamEnd_SUCCESS (m : UprEvent) : Prop :=
  ev_Opcode m = UPR_STREAMEND /\ ev_Status m = SUCCESS.

(** Every routine is filed in the map under its own vbucket number. *)
Definition keyed (k : KVData) : Prop :=
  forall v vr, vrs k !! v = Some vr -> vr_vbno vr = v.

(** A well-formed [Close] command. *)
Definition is_Close (msg : list iface) : Prop :=
  msg_byte msg 0 = Done kvCmdClose /\ exists respch, msg_chan msg 1 = Done respch.

(** The three ways in which an iteration executes [break loop]: the upstream
    channel is closed; the routine map is empty once the event has been
    scattered; a [Close] command has arrived. *)
Definition leaves_loop (c : select_case) (s : Scatter) : Prop :=
  match c with
  | MutchClosed => True
  | Mutch m => exists k, scatterMutation m (ts s) (kvdata s) = Done k /\ vrs k = ∅
  | Sbch msg => is_Close msg
  end.

Definition step_state (r : step_result) : Scatter :=
  match r with Continue s | Break s | Crash s _ => s end.

(** The state in which [runScatter] starts its loop. *)
Definition start (ts : TsVbuuid) (k : KVData) : Scatter := mkScatter k ts 0 [].

End DataPath.

Arguments Done {A} a.
Arguments Panic {A} reason.

(** An instance of the external parts for running the definitions on
    concrete inputs: engines and endpoints are names, a restart timestamp
    maps a vbucket to its sequence number, and the latest entry of a
    failover log is its last one. *)
Definition sample_SeqnoFor (ts : gmap Z Z) (vbno : Z) : Z * error :=
  match ts !! vbno with
  | Some seqno => (seqno, None)
  | None => (0, Some "vbucket not found")
  end.

Definition sample_Latest (flog : option (list (Z * Z))) : Z * Z * error :=
  match flog with
  | Some (e :: l) => (fst (List.last l e), snd (List.last l e), None)
  | _ => (0, 0, Some "invalid failover log")
  end.

Definition sample : Externals :=
  Build_Externals string string unit (gmap Z Z) sample_SeqnoFor
    (fun old new => new ∪ old) sample_Latest.

Definition sample_kvdata : @KVData sample :=
  @NewKVData sample "T" tt "default" "kv1:11210" {[ 7 := "engine7" ]}
    {[ "indexer1:9100" := "endpoint1" ]}.

Definition sample_ts : gmap Z Z := {[ 0 := 100; 1 := 200 ]}.

Definition StreamRequest (vbno : Z) (st : Status) : UprEvent :=
  mkUprEvent UPR_STREAMREQ st vbno 0 0 (Some [(11, 0); (22, 50)]).

Definition StreamEnd (vbno : Z) (st : Status) : UprEvent :=
  mkUprEvent UPR_STREAMEND st vbno 0 0 None.

Definition Mutation (vbno seqno : Z) : UprEvent :=
  mkUprEvent UPR_MUTATION SUCCESS vbno 0 seqno None.

(** The sample data path with a routine for vbucket 0 in its map. *)
Definition sample_running : @KVData sample :=
  @set_vrs sample
    {[ 0 := @NewVbucketRoutine sample "T" "default" "kv1:11210" 0 22 100 tt ]}
    sample_kvdata.

End Projector.

(** ** Plan / rebalance orchestrator (client.go:910-1835, package planner) *)

Module Planner.

Import GoInt.

Definition error := option string.

(** A computation that may panic. *)
Inductive outcome (A : Type) :=
| Done (a : A)
| Panic (reason : string).
Arguments Done {A} a.
Arguments Panic {A} reason.

(** What the code reads through the pointer [index.initialNode]: the
    identity of the node and its [delete] flag. *)
Record NodeHandle := mkNodeHandle {
  h_NodeId   : string;
  h_NodeUUID : string;
  h_delete   : bool
}.

(** Modelled from the spec: [IndexUsage] is declared in a file of the
    planner that is not part of the sources at hand.  Its fields are the
    ones this code reads and writes (identification, descriptive statistics,
    live usage, pinning, definition, initial node) and the estimates of the
    sizing method (specification, 3 and 4.E).  All fields but [initialNode]
    are exported; [initialNode] is a pointer, [None] for a newly placed
    index. *)
Record IndexUsage := mkIndexUsage {
  DefnId            : Z;
  InstId            : Z;
  Name              : string;
  Bucket            : string;
  IsPrimary         : bool;
  IsMOI             : bool;
  Hosts             : list string;
  NumOfDocs         : Z;
  AvgDocKeySize     : Z;
  AvgSecKeySize     : Z;
  AvgArrKeySize     : Z;
  AvgArrSize        : Z;
  MutationRate      : Z;
  ScanRate          : Z;
  MemUsage          : Z;
  MemOverhead       : Z;
  CpuUsage          : Z;
  ActualMemUsage    : Z;
  ActualMemOverhead : Z;
  ActualKeySize     : Z;
  Defn              : option Common.IndexDefn;   (* the field [Definition] *)
  initialNode       : option NodeHandle
}.

(** Modelled from the spec: [IndexerNode], declared next to [IndexUsage].
    [node_delete] is the unexported field [delete]. *)
Record IndexerNode := mkIndexerNode {
  NodeId                 : string;
  NodeUUID               : string;
  ServerGroup            : string;
  node_MemUsage          : Z;
  node_CpuUsage          : Z;
  node_ActualMemUsage    : Z;
  node_ActualMemOverhead : Z;
  Indexes                : list IndexUsage;
  node_delete            : bool
}.

(** Modelled from the spec: [Solution], of which this code uses the
    placement and the unexported [isLiveData]. *)
Record Solution := mkSolution {
  sol_Placement : list IndexerNode;
  isLiveData    : bool
}.

(** [ConstraintMethod], as far as [savePlan] calls it. *)
Record ConstraintMethod := mkConstraint {
  GetMemQuota : Z;
  GetCpuQuota : Z
}.

(** [type Plan struct], client.go:988. *)
Record Plan := mkPlan {
  Placement : list IndexerNode;
  MemQuota  : Z;
  CpuQuota  : Z;
  IsLive    : bool
}.

(** [type IndexSpec struct], client.go:996. *)
Record IndexSpec := mkIndexSpec {
  spec_Name         : string;
  spec_Bucket       : string;
  spec_IsPrimary    : bool;
  spec_SecExprs     : list string;
  spec_WhereExpr    : string;
  spec_Deferred     : bool;
  spec_Immutable    : bool;
  spec_IsArrayIndex : bool;
  spec_Replica      : Z;
  spec_NumDoc       : Z;
  spec_DocKeySize   : Z;
  spec_SecKeySize   : Z;
  spec_ArrKeySize   : Z;
  spec_ArrSize      : Z;
  spec_MutationRate : Z;
  spec_ScanRate     : Z
}.

(** [type TransferToken struct], client.go:1022. *)
Record TransferToken := mkTransferToken {
  MasterId     : string;
  SourceId     : string;
  DestId       : string;
  RebalId      : string;
  State        : string;
  tt_InstId    : Z;
  tt_IndexDefn : Common.IndexDefn
}.

(** [service.TopologyChange]: the field read here. *)
Record TopologyChange := mkTopologyChange {
  ID : string
}.

(** *** Transfer tokens *)

Definition token_id (ustr : string) : string := "TransferToken" ++ ustr.

(** The body of the inner loop of [genTransferToken] for one index of one
    indexer.  The state is the token map and the number of identifiers drawn
    so far; [uuids j] is the string of the [j]-th identifier that
    [common.NewUUID] hands out.  Dereferencing a nil [initialNode] or a nil
    [Definition] panics. *)
Definition genTransferToken_index (masterId : string) (change : TopologyChange)
    (uuids : nat -> string) (indexer : IndexerNode) (index : IndexUsage)
    (st : gmap string TransferToken * nat)
    : outcome (gmap string TransferToken * nat) :=
  match initialNode index with
  | None => Panic "nil pointer dereference"
  | Some ini =>
      if Common.str_ne (h_NodeId ini) (NodeId indexer) then
        match Defn index with
        | None => Panic "nil pointer dereference"
        | Some defn =>
            let token := mkTransferToken masterId (h_NodeUUID ini)
                           (NodeUUID indexer) (ID change) "TransferTokenCreated"
                           (InstId index) defn in
            let ttid := token_id (uuids (snd st)) in
            Done (<[ttid := token]> (fst st), S (snd st))
        end
      else Done st
  end.

(** [for _, index := range indexer.Indexes]. *)
Fixpoint genTransferToken_indexes (masterId : string) (change : TopologyChange)
    (uuids : nat -> string) (indexer : IndexerNode) (indexes : list IndexUsage)
    (st : gmap string TransferToken * nat)
    : outcome (gmap string TransferToken * nat) :=
  match indexes with
  | [] => Done st
  | index :: rest =>
      match genTransferToken_index masterId change uuids indexer index st with
      | Panic r => Panic r
      | Done st1 => genTransferToken_indexes masterId change uuids indexer rest st1
      end
  end.

(** [for _, indexer := range solution.Placement]. *)
Fixpoint genTransferToken_nodes (masterId : string) (change : TopologyChange)
    (uuids : nat -> string) (placement : list IndexerNode)
    (st : gmap string TransferToken * nat)
    : outcome (gmap string TransferToken * nat) :=
  match placement with
  | [] => Done st
  | indexer :: rest =>
      match genTransferToken_indexes masterId change uuids indexer
              (Indexes indexer) st with
      | Panic r => Panic r
      | Done st1 => genTransferToken_nodes masterId change uuids rest st1
      end
  end.

(** [func genTransferToken(solution, masterId, topologyChange)], client.go:1082. *)
Definition genTransferToken (solution : Solution) (masterId : string)
    (change : TopologyChange) (uuids : nat -> string)
    : outcome (gmap string TransferToken) :=
  match genTransferToken_nodes masterId change uuids (sol_Placement solution) (∅, 0%nat) with
  | Panic r => Panic r
  | Done st => Done (fst st)
  end.

(** The specification's reading: the indexes "whose node changed", each with
    the indexer that hosts it, in placement order. *)
Definition hosted (solution : Solution) : list (IndexerNode * IndexUsage) :=
  indexer ← sol_Placement solution; (fun index => (indexer, index)) <$> Indexes indexer.

Definition node_changed (p : IndexerNode * IndexUsage) : bool :=
  match initialNode (snd p) with
  | Some ini => negb (String.eqb (h_NodeId ini) (NodeId (fst p)))
  | None => false
  end.

Definition moved (solution : Solution) : list (IndexerNode * IndexUsage) :=
  List.filter node_changed (hosted solution).

(** The token the specification describes for a moved index. *)
Definition token_for (masterId : string) (change : TopologyChange)
    (p : IndexerNode * IndexUsage) : TransferToken :=
  mkTransferToken masterId
    (from_option h_NodeUUID "" (initialNode (snd p)))
    (NodeUUID (fst p)) (ID change) "TransferTokenCreated" (InstId (snd p))
    (default Common.zero_IndexDefn (Defn (snd p))).

(** A solution as [ExecuteRebalanceInternal] obtains it: read from the
    cluster, where every index is given its definition and its initial node
    (proxy.go:169-170). *)
Definition from_cluster (solution : Solution) : Prop :=
  forall p, p ∈ hosted solution ->
    is_Some (initialNode (snd p)) /\ is_Some (Defn (snd p)).

(** One pass of the loop body over the moved indexes only. *)
Definition emit (masterId : string) (change : TopologyChange) (uuids : nat -> string)
    (st : gmap string TransferToken * nat) (p : IndexerNode * IndexUsage)
    : gmap string TransferToken * nat :=
  (<[token_id (uuids (snd st)) := token_for masterId change p]> (fst st), S (snd st)).

(** The first [n] identifiers are pairwise distinct. *)
Definition fresh (uuids : nat -> string) (n : nat) : Prop :=
  forall i j, (i < n)%nat -> (j < n)%nat -> uuids i = uuids j -> i = j.

(** A solution with two nodes: index 1 sits on the node it started on,
    index 2 has moved from node n1 to node n2. *)
Definition handle_n1 : NodeHandle := mkNodeHandle "n1:9102" "uuid-n1" false.

Definition sample_index (inst : Z) (name : string) : IndexUsage :=
  mkIndexUsage 42 inst name "default" false true [] 1000 20 30 0 0 0 0 0 0 0 0 0 0
    (Some Common.defn_two_keys) (Some handle_n1).

Definition sample_solution : Solution :=
  mkSolution
    [ mkIndexerNode "n1:9102" "uuid-n1" "" 0 0 0 0 [sample_index 1 "idx1"] false;
      mkIndexerNode "n2:9102" "uuid-n2" "" 0 0 0 0 [sample_index 2 "idx2"] false ]
    true.

(** A solution in which both indexes have moved from node n1 to node n2. *)
Definition sample_two_moved : Solution :=
  mkSolution
    [ mkIndexerNode "n1:9102" "uuid-n1" "" 0 0 0 0 [] false;
      mkIndexerNode "n2:9102" "uuid-n2" "" 0 0 0 0
        [sample_index 1 "idx1"; sample_index 2 "idx2"] false ]
    true.

(** An identifier source that hands out the same string at every call.
    [genTransferToken] drops the error of [common.NewUUID]
    ([ustr, _ := common.NewUUID()]), so a call that failed passes
    unnoticed and its identifier is used all the same. *)
Definition repeated_identifier (_ : nat) : string := "".

(** *** Index usages from index specs *)

(** Modelled from the spec: the sizing method is an interface whose only
    implementation lives outside the sources at hand; it is "a pure mapping
    from an IndexUsage's descriptive fields to estimated memory usage,
    memory overhead, and CPU usage" (specification, 4.E).
    [ComputeIndexSize] returns the three estimates, which are stored in the
    index. *)
Class SizingMethod := {
  ComputeIndexSize : IndexUsage -> Z * Z * Z
}.

Definition set_estimates (e : Z * Z * Z) (x : IndexUsage) : IndexUsage :=
  mkIndexUsage (DefnId x) (InstId x) (Name x) (Bucket x) (IsPrimary x) (IsMOI x)
    (Hosts x) (NumOfDocs x) (AvgDocKeySize x) (AvgSecKeySize x) (AvgArrKeySize x)
    (AvgArrSize x) (MutationRate x) (ScanRate x)
    (fst (fst e)) (snd (fst e)) (snd e)
    (ActualMemUsage x) (ActualMemOverhead x) (ActualKeySize x)
    (Defn x) (initialNode x).

(** Go's allocator, as far as [make] depends on it: [maxAlloc] is the largest
    number of bytes that one allocation may ask for (2^48 on linux/amd64,
    less on 32-bit platforms and in earlier releases).  The machine is taken
    to have the memory that the allocator grants. *)
Class Runtime := {
  maxAlloc : Z
}.

(** The size of a pointer, the element of [[]*IndexUsage], in bytes, and the
    largest [uintptr]. *)
Definition PtrSize : Z := 8.
Definition max_uintptr : Z := 2 ^ 64 - 1.

(** [make([]*IndexUsage, n)] for [n : uint64]: a slice of [n] nil pointers.
    [runtime.makeslice] panics when the length does not fit [int], when its
    size in bytes overflows a [uintptr], and when that size exceeds
    [maxAlloc]. *)
Definition make_slice `{Runtime} (n : Z) : outcome (list (option IndexUsage)) :=
  if (0 <=? n) && (n <=? max_int) && (PtrSize * n <=? max_uintptr)
     && (PtrSize * n <=? maxAlloc)
  then Done (replicate (Z.to_nat n) None)
  else Panic "makeslice: len out of range".

(** The lengths for which [make([]*IndexUsage, n)] returns a slice. *)
Definition allocatable `{Runtime} (n : Z) : Prop :=
  0 <= n /\ PtrSize * n <= max_uintptr /\ PtrSize * n <= maxAlloc.

(** The name of replica [i]: [spec.Name] for [i = 0],
    [fmt.Sprintf("%v_%v", spec.Name, i)] otherwise. *)
Definition replica_name (spec : IndexSpec) (i : Z) : string :=
  if i =? 0 then spec_Name spec
  else (spec_Name spec ++ "_" ++ Strconv.Itoa i)%string.

(** The index built by one iteration of the loop of [indexUsageFromSpec],
    before [sizing.ComputeIndexSize] is called on it. *)
Definition unsized_index (uuid : Z) (spec : IndexSpec) (i : Z) : IndexUsage :=
  let name := replica_name spec i in
  let defn :=
    Common.mkIndexDefn 0 name "" (spec_Bucket spec) "" (spec_IsPrimary spec)
      (spec_SecExprs spec) "" "" "" (spec_WhereExpr spec) false
      (spec_Immutable spec) [] (spec_IsArrayIndex spec) in
  mkIndexUsage uuid i name (spec_Bucket spec) (spec_IsPrimary spec) true []
    (spec_NumDoc spec) (spec_DocKeySize spec) (spec_SecKeySize spec)
    (spec_ArrKeySize spec) (spec_ArrSize spec) (spec_MutationRate spec)
    (spec_ScanRate spec) 0 0 0 0 0 0 (Some defn) None.

Definition new_index `{SizingMethod} (uuid : Z) (spec : IndexSpec) (i : Z)
    : IndexUsage :=
  let index := unsized_index uuid spec i in
  set_estimates (ComputeIndexSize index) index.

(** [for i := 0; i < int(spec.Replica); i++ { ...; result[i] = index }]. *)
Definition fill_replicas `{SizingMethod} (uuid : Z) (spec : IndexSpec)
    (result : list (option IndexUsage)) : list (option IndexUsage) :=
  foldl (fun res i => <[i := Some (new_index uuid spec (Z.of_nat i))]> res) result
        (seq 0 (Z.to_nat (int_of_uint64 (spec_Replica spec)))).

(** [func indexUsageFromSpec(sizing, spec)], client.go:1705.  [newUUID] is
    what [common.NewUUID] yields: the [Uint64] of the identifier, or [None]
    for an error.  The result is the returned slice of pointers and the
    returned error. *)
Definition indexUsageFromSpec `{SizingMethod} `{Runtime} (newUUID : option Z)
    (spec : IndexSpec)
    : outcome (list (option IndexUsage) * error) :=
  match make_slice (spec_Replica spec) with
  | Panic r => Panic r
  | Done result =>
      match newUUID with
      | None => Done ([], Some "unable to generate UUID")
      | Some uuid => Done (fill_replicas uuid spec result, None)
      end
  end.

(** A sizing method for running the definitions: a fixed overhead per
    document. *)
Definition sample_sizing : SizingMethod :=
  Build_SizingMethod (fun x => (NumOfDocs x * AvgSecKeySize x, NumOfDocs x * 8, 1)).

(** The allocator of linux/amd64. *)
Definition sample_runtime : Runtime := Build_Runtime (2 ^ 48).

Definition sample_spec (replica : Z) : IndexSpec :=
  mkIndexSpec "idx" "default" false ["city"] "" false false false replica
    1000 20 30 0 0 0 0.

End Planner.

(** ** [encoding/json], as far as plans use it *)

Module Json.

Import GoInt.

(** A JSON document.  All numbers written and read here are integers. *)
#[warnings="-register-all"]
Inductive json :=
| JNull
| JBool (b : bool)
| JNum (z : Z)
| JStr (s : string)
| JArr (items : list json)
| JObj (members : list (string * json)).

(** The member of an object with a given key, [None] when there is none. *)
Fixpoint obj_get (key : string) (members : list (string * json)) : option json :=
  match members with
  | [] => None
  | (k, v) :: rest => if String.eqb key k then Some v else obj_get key rest
  end.

(** The fields of a struct as [Marshal] visits them: the key of the struct
    tag, whether the field is left out (it is tagged [omitempty] and holds
    its zero value), and the encoded value. *)
Definition member : Type := string * (bool * json).

Definition plain_field (key : string) (v : json) : member := (key, (false, v)).
Definition omitempty (key : string) (empty : bool) (v : json) : member :=
  (key, (empty, v)).

(** The members of the object written for a struct. *)
Definition members (ms : list member) : list (string * json) :=
  omap (fun m : member => if fst (snd m) then None else Some (fst m, snd (snd m))) ms.

Definition object (ms : list member) : json := JObj (members ms).

(** The entry of a field list for a key. *)
Fixpoint assoc (key : string) (ms : list member) : option (bool * json) :=
  match ms with
  | [] => None
  | (k, ev) :: rest => if String.eqb key k then Some ev else assoc key rest
  end.

Definition is_empty_string (s : string) : bool := String.eqb s "".
Definition is_empty_list {A} (l : list A) : bool :=
  match l with [] => true | _ => false end.

Section Codec.

(** [Marshal] coerces a string to valid UTF-8, replacing invalid bytes by
    the replacement rune. *)
Variable ToValidUTF8 : string -> string.

Definition enc_string (s : string) : json := JStr (ToValidUTF8 s).
Definition enc_strings (l : list string) : json := JArr (enc_string <$> l).

(** Decoding into a field that holds its zero value: an absent member and
    [null] leave the field as it is, a value of another kind (or a number
    out of range) is an error, here [None]. *)
Definition dec_uint64 (o : option json) : option Z :=
  match o with
  | None | Some JNull => Some 0
  | Some (JNum z) => if (0 <=? z) && (z <=? max_uint64) then Some z else None
  | Some _ => None
  end.

Definition dec_bool (o : option json) : option bool :=
  match o with
  | None | Some JNull => Some false
  | Some (JBool b) => Some b
  | Some _ => None
  end.

Definition dec_string (o : option json) : option string :=
  match o with
  | None | Some JNull => Some ""
  | Some (JStr s) => Some s
  | Some _ => None
  end.

Definition dec_list {A} (dec : json -> option A) (o : option json)
    : option (list A) :=
  match o with
  | None | Some JNull => Some []
  | Some (JArr items) => mapM dec items
  | Some _ => None
  end.

Definition dec_strings (o : option json) : option (list string) :=
  dec_list (fun j => dec_string (Some j)) o.

(** A pointer to a struct: [null] and an absent member leave it nil. *)
Definition dec_pointer {A} (dec : json -> option A) (o : option json)
    : option (option A) :=
  match o with
  | None | Some JNull => Some None
  | Some j => Some <$> dec j
  end.

End Codec.

End Json.

(** ** Plans on file (client.go:1769-1810) *)

Module PlanFile.

Import GoInt Json Planner.

Section Codec.

Variable ToValidUTF8 : string -> string.

Local Abbreviation enc_string := (Json.enc_string ToValidUTF8).
Local Abbreviation enc_strings := (Json.enc_strings ToValidUTF8).

(** [common.IndexDefn] with its struct tags (proxy.go:780): every field is
    [omitempty]. *)
Definition enc_IndexDefn (d : Common.IndexDefn) : json :=
  object
   [ omitempty "defnId" (Common.DefnId d =? 0) (JNum (Common.DefnId d))
   ; omitempty "name" (is_empty_string (Common.Name d)) (enc_string (Common.Name d))
   ; omitempty "using" (is_empty_string (Common.Using d)) (enc_string (Common.Using d))
   ; omitempty "bucket" (is_empty_string (Common.Bucket d)) (enc_string (Common.Bucket d))
   ; omitempty "bucketUUID" (is_empty_string (Common.BucketUUID d))
      (enc_string (Common.BucketUUID d))
   ; omitempty "isPrimary" (negb (Common.IsPrimary d)) (JBool (Common.IsPrimary d))
   ; omitempty "secExprs" (is_empty_list (Common.SecExprs d))
      (enc_strings (Common.SecExprs d))
   ; omitempty "exprType" (is_empty_string (Common.ExprType d))
      (enc_string (Common.ExprType d))
   ; omitempty "partitionScheme" (is_empty_string (Common.PartitionScheme d))
      (enc_string (Common.PartitionScheme d))
   ; omitempty "partitionKey" (is_empty_string (Common.PartitionKey d))
      (enc_string (Common.PartitionKey d))
   ; omitempty "where" (is_empty_string (Common.WhereExpr d))
      (enc_string (Common.WhereExpr d))
   ; omitempty "deferred" (negb (Common.Deferred d)) (JBool (Common.Deferred d))
   ; omitempty "immutable" (negb (Common.Immutable d)) (JBool (Common.Immutable d))
   ; omitempty "nodes" (is_empty_list (Common.Nodes d)) (enc_strings (Common.Nodes d))
   ; omitempty "isArrayIndex" (negb (Common.IsArrayIndex d))
      (JBool (Common.IsArrayIndex d)) ].

Definition dec_IndexDefn (j : json) : option Common.IndexDefn :=
  match j with
  | JObj ms =>
      defnId ← dec_uint64 (obj_get "defnId" ms);
      name ← dec_string (obj_get "name" ms);
      usingType ← dec_string (obj_get "using" ms);
      bucket ← dec_string (obj_get "bucket" ms);
      bucketUUID ← dec_string (obj_get "bucketUUID" ms);
      isPrimary ← dec_bool (obj_get "isPrimary" ms);
      secExprs ← dec_strings (obj_get "secExprs" ms);
      exprType ← dec_string (obj_get "exprType" ms);
      partitionScheme ← dec_string (obj_get "partitionScheme" ms);
      partitionKey ← dec_string (obj_get "partitionKey" ms);
      whereExpr ← dec_string (obj_get "where" ms);
      deferred ← dec_bool (obj_get "deferred" ms);
      immutable ← dec_bool (obj_get "immutable" ms);
      nodes ← dec_strings (obj_get "nodes" ms);
      isArrayIndex ← dec_bool (obj_get "isArrayIndex" ms);
      Some (Common.mkIndexDefn defnId name usingType bucket bucketUUID isPrimary
              secExprs exprType partitionScheme partitionKey whereExpr deferred
              immutable nodes isArrayIndex)
  | _ => None
  end.

(** Modelled from the spec: the struct tags of [IndexUsage] and
    [IndexerNode] are declared with the types, outside the sources at hand.
    Every exported field is written under its name in lower camel case; the
    unexported [initialNode] and [delete] are not written, as
    [encoding/json] skips unexported fields. *)
Definition enc_IndexUsage (x : IndexUsage) : json :=
  object
   [ plain_field "defnId" (JNum (DefnId x))
   ; plain_field "instId" (JNum (InstId x))
   ; plain_field "name" (enc_string (Name x))
   ; plain_field "bucket" (enc_string (Bucket x))
   ; plain_field "isPrimary" (JBool (IsPrimary x))
   ; plain_field "isMOI" (JBool (IsMOI x))
   ; plain_field "hosts" (enc_strings (Hosts x))
   ; plain_field "numOfDocs" (JNum (NumOfDocs x))
   ; plain_field "avgDocKeySize" (JNum (AvgDocKeySize x))
   ; plain_field "avgSecKeySize" (JNum (AvgSecKeySize x))
   ; plain_field "avgArrKeySize" (JNum (AvgArrKeySize x))
   ; plain_field "avgArrSize" (JNum (AvgArrSize x))
   ; plain_field "mutationRate" (JNum (MutationRate x))
   ; plain_field "scanRate" (JNum (ScanRate x))
   ; plain_field "memUsage" (JNum (MemUsage x))
   ; plain_field "memOverhead" (JNum (MemOverhead x))
   ; plain_field "cpuUsage" (JNum (CpuUsage x))
   ; plain_field "actualMemUsage" (JNum (ActualMemUsage x))
   ; plain_field "actualMemOverhead" (JNum (ActualMemOverhead x))
   ; plain_field "actualKeySize" (JNum (ActualKeySize x))
   ; plain_field "definition"
      (match Defn x with Some d => enc_IndexDefn d | None => JNull end) ].

Definition dec_IndexUsage (j : json) : option IndexUsage :=
  match j with
  | JObj ms =>
      defnId ← dec_uint64 (obj_get "defnId" ms);
      instId ← dec_uint64 (obj_get "instId" ms);
      name ← dec_string (obj_get "name" ms);
      bucket ← dec_string (obj_get "bucket" ms);
      isPrimary ← dec_bool (obj_get "isPrimary" ms);
      isMOI ← dec_bool (obj_get "isMOI" ms);
      hosts ← dec_strings (obj_get "hosts" ms);
      numOfDocs ← dec_uint64 (obj_get "numOfDocs" ms);
      avgDocKeySize ← dec_uint64 (obj_get "avgDocKeySize" ms);
      avgSecKeySize ← dec_uint64 (obj_get "avgSecKeySize" ms);
      avgArrKeySize ← dec_uint64 (obj_get "avgArrKeySize" ms);
      avgArrSize ← dec_uint64 (obj_get "avgArrSize" ms);
      mutationRate ← dec_uint64 (obj_get "mutationRate" ms);
      scanRate ← dec_uint64 (obj_get "scanRate" ms);
      memUsage ← dec_uint64 (obj_get "memUsage" ms);
      memOverhead ← dec_uint64 (obj_get "memOverhead" ms);
      cpuUsage ← dec_uint64 (obj_get "cpuUsage" ms);
      actualMemUsage ← dec_uint64 (obj_get "actualMemUsage" ms);
      actualMemOverhead ← dec_uint64 (obj_get "actualMemOverhead" ms);
      actualKeySize ← dec_uint64 (obj_get "actualKeySize" ms);
      defn ← dec_pointer dec_IndexDefn (obj_get "definition" ms);
      Some (mkIndexUsage defnId instId name bucket isPrimary isMOI hosts
              numOfDocs avgDocKeySize avgSecKeySize avgArrKeySize avgArrSize
              mutationRate scanRate memUsage memOverhead cpuUsage actualMemUsage
              actualMemOverhead actualKeySize defn None)
  | _ => None
  end.

Definition enc_IndexerNode (n : IndexerNode) : json :=
  object
   [ plain_field "nodeId" (enc_string (NodeId n))
   ; plain_field "nodeUUID" (enc_string (NodeUUID n))
   ; plain_field "serverGroup" (enc_string (ServerGroup n))
   ; plain_field "memUsage" (JNum (node_MemUsage n))
   ; plain_field "cpuUsage" (JNum (node_CpuUsage n))
   ; plain_field "actualMemUsage" (JNum (node_ActualMemUsage n))
   ; plain_field "actualMemOverhead" (JNum (node_ActualMemOverhead n))
   ; plain_field "indexes" (JArr (enc_IndexUsage <$> Indexes n)) ].

Definition dec_IndexerNode (j : json) : option IndexerNode :=
  match j with
  | JObj ms =>
      nodeId ← dec_string (obj_get "nodeId" ms);
      nodeUUID ← dec_string (obj_get "nodeUUID" ms);
      serverGroup ← dec_string (obj_get "serverGroup" ms);
      memUsage ← dec_uint64 (obj_get "memUsage" ms);
      cpuUsage ← dec_uint64 (obj_get "cpuUsage" ms);
      actualMemUsage ← dec_uint64 (obj_get "actualMemUsage" ms);
      actualMemOverhead ← dec_uint64 (obj_get "actualMemOverhead" ms);
      indexes ← dec_list dec_IndexUsage (obj_get "indexes" ms);
      Some (mkIndexerNode nodeId nodeUUID serverGroup memUsage cpuUsage
              actualMemUsage actualMemOverhead indexes false)
  | _ => None
  end.

(** [json.MarshalIndent(plan, ...)] for [type Plan struct], whose four
    fields are tagged [omitempty]. *)
Definition Marshal (p : Plan) : json :=
  object
   [ omitempty "placement" (is_empty_list (Placement p))
      (JArr (enc_IndexerNode <$> Placement p))
   ; omitempty "memQuota" (MemQuota p =? 0) (JNum (MemQuota p))
   ; omitempty "cpuQuota" (CpuQuota p =? 0) (JNum (CpuQuota p))
   ; omitempty "isLive" (negb (IsLive p)) (JBool (IsLive p)) ].

(** [json.Unmarshal(buf, plan)] into [plan := &Plan{}]. *)
Definition Unmarshal (j : json) : option Plan :=
  match j with
  | JNull => Some (mkPlan [] 0 0 false)
  | JObj ms =>
      placement ← dec_list dec_IndexerNode (obj_get "placement" ms);
      memQuota ← dec_uint64 (obj_get "memQuota" ms);
      cpuQuota ← dec_uint64 (obj_get "cpuQuota" ms);
      isLive ← dec_bool (obj_get "isLive" ms);
      Some (mkPlan placement memQuota cpuQuota isLive)
  | _ => None
  end.

(** The files: a path holds a JSON document (its text is the business of
    [encoding/json]).  Writing to the empty path fails, as opening it does;
    every other write is taken to succeed, and different paths to name
    different files. *)
Definition WriteFile (path : string) (data : json) (fs : gmap string json)
    : error * gmap string json :=
  if String.eqb path "" then (Some "open : no such file or directory", fs)
  else (None, <[path := data]> fs).

Definition ReadFile (path : string) (fs : gmap string json) : option json * error :=
  match fs !! path with
  | Some data => (Some data, None)
  | None => (None, Some "open: no such file or directory")
  end.

(** [func savePlan(output, solution, constraint) error], client.go:1769. *)
Definition savePlan (output : string) (solution : Solution)
    (constraint : ConstraintMethod) (fs : gmap string json)
    : error * gmap string json :=
  let plan := mkPlan (sol_Placement solution) (GetMemQuota constraint)
                (GetCpuQuota constraint) (isLiveData solution) in
  let data := Marshal plan in
  match WriteFile output data fs with
  | (Some err, fs1) => (Some ("Unable to save plan into " ++ output)%string, fs1)
  | (None, fs1) => (None, fs1)
  end.

(** [func ReadPlan(planFile)], returning a plan pointer and an error, client.go:1791. *)
Definition ReadPlan (planFile : string) (fs : gmap string json)
    : option Plan * error :=
  if negb (String.eqb planFile "") then
    match ReadFile planFile fs with
    | (Some buf, _) =>
        match Unmarshal buf with
        | Some plan => (Some plan, None)
        | None => (None, Some ("Unable to parse plan from " ++ planFile)%string)
        end
    | (None, _) => (None, Some ("Unable to read plan from " ++ planFile)%string)
    end
  else (None, None).

(** *** What survives the file *)

Definition exported_IndexUsage (x : IndexUsage) : IndexUsage :=
  mkIndexUsage (DefnId x) (InstId x) (Name x) (Bucket x) (IsPrimary x) (IsMOI x)
    (Hosts x) (NumOfDocs x) (AvgDocKeySize x) (AvgSecKeySize x) (AvgArrKeySize x)
    (AvgArrSize x) (MutationRate x) (ScanRate x) (MemUsage x) (MemOverhead x)
    (CpuUsage x) (ActualMemUsage x) (ActualMemOverhead x) (ActualKeySize x)
    (Defn x) None.

Definition exported_IndexerNode (n : IndexerNode) : IndexerNode :=
  mkIndexerNode (NodeId n) (NodeUUID n) (ServerGroup n) (node_MemUsage n)
    (node_CpuUsage n) (node_ActualMemUsage n) (node_ActualMemOverhead n)
    (exported_IndexUsage <$> Indexes n) false.

(** The plan with the unexported fields of its nodes and indexes reset to
    their zero values. *)
Definition exported (p : Plan) : Plan :=
  mkPlan (exported_IndexerNode <$> Placement p) (MemQuota p) (CpuQuota p) (IsLive p).

(** The values the types admit: [uint64] fields within range, strings that
    are valid UTF-8 (fixed by the coercion). *)
Definition ok_u64 (z : Z) : Prop := 0 <= z <= max_uint64.
Definition ok_str (s : string) : Prop := ToValidUTF8 s = s.

Definition ok_IndexDefn (d : Common.IndexDefn) : Prop :=
  ok_u64 (Common.DefnId d) /\ ok_str (Common.Name d) /\ ok_str (Common.Using d) /\
  ok_str (Common.Bucket d) /\ ok_str (Common.BucketUUID d) /\
  Forall ok_str (Common.SecExprs d) /\ ok_str (Common.ExprType d) /\
  ok_str (Common.PartitionScheme d) /\ ok_str (Common.PartitionKey d) /\
  ok_str (Common.WhereExpr d) /\ Forall ok_str (Common.Nodes d).

Definition ok_IndexUsage (x : IndexUsage) : Prop :=
  ok_u64 (DefnId x) /\ ok_u64 (InstId x) /\ ok_str (Name x) /\ ok_str (Bucket x) /\
  Forall ok_str (Hosts x) /\ ok_u64 (NumOfDocs x) /\ ok_u64 (AvgDocKeySize x) /\
  ok_u64 (AvgSecKeySize x) /\ ok_u64 (AvgArrKeySize x) /\ ok_u64 (AvgArrSize x) /\
  ok_u64 (MutationRate x) /\ ok_u64 (ScanRate x) /\ ok_u64 (MemUsage x) /\
  ok_u64 (MemOverhead x) /\ ok_u64 (CpuUsage x) /\ ok_u64 (ActualMemUsage x) /\
  ok_u64 (ActualMemOverhead x) /\ ok_u64 (ActualKeySize x) /\
  from_option ok_IndexDefn True (Defn x).

Definition ok_IndexerNode (n : IndexerNode) : Prop :=
  ok_str (NodeId n) /\ ok_str (NodeUUID n) /\ ok_str (ServerGroup n) /\
  ok_u64 (node_MemUsage n) /\ ok_u64 (node_CpuUsage n) /\
  ok_u64 (node_ActualMemUsage n) /\ ok_u64 (node_ActualMemOverhead n) /\
  Forall ok_IndexUsage (Indexes n).

Definition ok_Plan (p : Plan) : Prop :=
  Forall ok_IndexerNode (Placement p) /\ ok_u64 (MemQuota p) /\ ok_u64 (CpuQuota p).

End Codec.

(** A plan as a rebalance leaves it: the index remembers its initial node. *)
Definition sample_plan : Plan :=
  mkPlan (sol_Placement sample_solution) 1000000 4 true.

End PlanFile.

(** ** Runs of the retry wrapper *)

Module RetryRuns.

Import Client.

(** What holds of every state the loop reaches from [init c]. *)
Definition reached (c : Client) (fn : nat -> error) (st : loop_state) : Prop :=
  interval st = interval_at c (calls st) /\
  sleeps st = sleeps_before c (calls st) /\
  forall j, (j < calls st)%nat -> refused (fn j) /\ 0 < interval_at c j.

End RetryRuns.

(** ** Runs of the data path *)

Module DataPathRuns.

Import Projector.

Section Runs.

Context `{Externals}.

(** The fields of a data path that are set once, and [finch]. *)
Definition same_identity (k k' : KVData) : Prop :=
  topic k' = topic k /\ bucket k' = bucket k /\ kvaddr k' = kvaddr k /\
  feed_config k' = feed_config k /\ finch_closed k' = finch_closed k.

Definition is_command (c : select_case) : bool :=
  match c with Sbch _ => true | _ => false end.

(** The vbucket of an input that is a successful stream request. *)
Definition opened_by (c : select_case) : option Z :=
  match c with
  | Mutch m =>
      match ev_Opcode m, ev_Status m with
      | UPR_STREAMREQ, SUCCESS => Some (ev_VBucket m)
      | _, _ => None
      end
  | _ => None
  end.

Definition opened (inputs : list select_case) : list Z := omap opened_by inputs.

Definition is_data_event (m : UprEvent) : Prop :=
  ev_Opcode m = UPR_MUTATION \/ ev_Opcode m = UPR_DELETION \/
  ev_Opcode m = UPR_SNAPSHOT \/ ev_Opcode m = UPR_EXPIRATION.

End Runs.

End DataPathRuns.

(** ** Cluster layout helpers (proxy.go:424-449, 599-608, 694-714, 889-907) *)

Module Layout.

Import Json Planner.

Definition error := option string.

(** [func findIndexerByNodeId(indexers, nodeId) *IndexerNode], for a slice
    without nil pointers: the first node with that id, [None] for [nil]. *)
Fixpoint findIndexerByNodeId (indexers : list IndexerNode) (nodeId : string)
    : option IndexerNode :=
  match indexers with
  | [] => None
  | node :: rest =>
      if String.eqb (NodeId node) nodeId then Some node
      else findIndexerByNodeId rest nodeId
  end.

(** The parts of [manager.IndexTopology] that the two finders read. *)
Record IndexInstDistribution := mkInst {
  dist_InstId : Z
}.

Record IndexDefnDistribution := mkDefnDist {
  dist_DefnId : Z;
  Instances   : list IndexInstDistribution
}.

Record IndexTopology := mkTopology {
  top_Bucket  : string;
  Definitions : list IndexDefnDistribution
}.

(** [func findTopologyByBucket(topologies, bucket) *manager.IndexTopology]. *)
Fixpoint findTopologyByBucket (topologies : list IndexTopology) (bucket : string)
    : option IndexTopology :=
  match topologies with
  | [] => None
  | topology :: rest =>
      if String.eqb (top_Bucket topology) bucket then Some topology
      else findTopologyByBucket rest bucket
  end.

(** The loop of [findIndexInstId] over [topology.Definitions]: a matching
    definition returns its first instance; one without instances lets the
    search go on. *)
Fixpoint findIndexInstId_loop (defns : list IndexDefnDistribution) (defnId : Z)
    : option Z :=
  match defns with
  | [] => None
  | defnRef :: rest =>
      if dist_DefnId defnRef =? defnId then
        match Instances defnRef with
        | inst :: _ => Some (dist_InstId inst)
        | [] => findIndexInstId_loop rest defnId
        end
      else findIndexInstId_loop rest defnId
  end.

(** [func findIndexInstId(topology, defnId) (common.IndexInstId, error)],
    for a topology that is not nil. *)
Definition findIndexInstId (topology : IndexTopology) (defnId : Z) : Z * error :=
  match findIndexInstId_loop (Definitions topology) defnId with
  | Some instId => (instId, None)
  | None =>
      (0, Some ("Cannot find index instance id for defnition "
                ++ Strconv.Itoa defnId)%string)
  end.

(** [type IndexState int] and [func (s IndexState) String() string]. *)
Definition INDEX_STATE_CREATED : Z := 0.
Definition INDEX_STATE_READY : Z := 1.
Definition INDEX_STATE_INITIAL : Z := 2.
Definition INDEX_STATE_CATCHUP : Z := 3.
Definition INDEX_STATE_ACTIVE : Z := 4.
Definition INDEX_STATE_DELETED : Z := 5.
Definition INDEX_STATE_ERROR : Z := 6.
Definition INDEX_STATE_NIL : Z := 7.

Definition IndexState_String (s : Z) : string :=
  if s =? INDEX_STATE_CREATED then "INDEX_STATE_CREATED"
  else if s =? INDEX_STATE_READY then "INDEX_STATE_READY"
  else if s =? INDEX_STATE_INITIAL then "INDEX_STATE_INITIAL"
  else if s =? INDEX_STATE_CATCHUP then "INDEX_STATE_CATCHUP"
  else if s =? INDEX_STATE_ACTIVE then "INDEX_STATE_ACTIVE"
  else if s =? INDEX_STATE_DELETED then "INDEX_STATE_DELETED"
  else if s =? INDEX_STATE_ERROR then "INDEX_STATE_ERROR"
  else "INDEX_STATE_UNKNOWN".

Section Codec.

Variable ToValidUTF8 : string -> string.

(** [func MarshallIndexDefn(defn *IndexDefn) ([]byte, error)]: the document
    of [json.Marshal(&defn)], [null] for a nil pointer. *)
Definition MarshallIndexDefn (defn : option Common.IndexDefn) : json * error :=
  match defn with
  | Some d => (PlanFile.enc_IndexDefn ToValidUTF8 d, None)
  | None => (JNull, None)
  end.

(** [func UnmarshallIndexDefn(data []byte)], returning a definition pointer and an error: decoding
    into [new(IndexDefn)]; [null] leaves the zero value. *)
Definition UnmarshallIndexDefn (data : json) : option Common.IndexDefn * error :=
  match data with
  | JNull => (Some Common.zero_IndexDefn, None)
  | _ =>
      match PlanFile.dec_IndexDefn data with
      | Some d => (Some d, None)
      | None => (None, Some "json: cannot unmarshal")
      end
  end.

End Codec.

End Layout.

(** ** Rebalance preparation (client.go:1044-1055, 1579-1594, 1691-1703) *)

Module Rebalance.

Import GoInt Planner.

Definition error := option string.

(** [nodes[node.NodeUUID] = node.NodeId] for every node of the plan, in
    order: a later node replaces an earlier one with the same UUID. *)
Definition node_ids (placement : list IndexerNode) : gmap string string :=
  foldl (fun nodes node => <[NodeUUID node := NodeId node]> nodes) ∅ placement.

(** The loop of [ExecuteRebalanceInternal] over [topologyChange.EjectNodes]
    ([ejectNodes] are their [NodeID]s): the node id of each, or the error
    of the first one that the plan does not know. *)
Fixpoint resolve_loop (nodes : gmap string string) (ejectNodes : list string)
    : list string + string :=
  match ejectNodes with
  | [] => inl []
  | nodeID :: rest =>
      match nodes !! nodeID with
      | None => inr ("Unable to find indexer node with node UUID " ++ nodeID)%string
      | Some nodeId =>
          match resolve_loop nodes rest with
          | inl ids => inl (nodeId :: ids)
          | inr err => inr err
          end
      end
  end.

Definition deleteNodes_of (plan : Plan) (ejectNodes : list string)
    : list string + string :=
  resolve_loop (node_ids (Placement plan)) ejectNodes.

Definition set_Hosts (hosts : list string) (x : IndexUsage) : IndexUsage :=
  mkIndexUsage (DefnId x) (InstId x) (Name x) (Bucket x) (IsPrimary x) (IsMOI x)
    hosts (NumOfDocs x) (AvgDocKeySize x) (AvgSecKeySize x) (AvgArrKeySize x)
    (AvgArrSize x) (MutationRate x) (ScanRate x) (MemUsage x) (MemOverhead x)
    (CpuUsage x) (ActualMemUsage x) (ActualMemOverhead x) (ActualKeySize x)
    (Defn x) (initialNode x).

(** The first statement of the loop body of [filterPinnedIndexes]: the index
    as it is after [index.Hosts = nil] has or has not been executed. *)
Definition unpin (allowUnpin : bool) (index : IndexUsage) : IndexUsage :=
  if allowUnpin || from_option h_delete false (initialNode index)
  then set_Hosts [] index else index.

(** An index that [filterPinnedIndexes] lets go of: unpinning is allowed, or
    its initial node is being deleted, or it is not pinned to any host. *)
Definition released (allowUnpin : bool) (index : IndexUsage) : bool :=
  allowUnpin || from_option h_delete false (initialNode index)
  || (length (Hosts index) =? 0)%nat.

(** [func filterPinnedIndexes(config, indexes) []*IndexUsage].  The indexes
    are shared objects which the function updates; the result is the pair of
    the indexes as they are afterwards and the returned slice. *)
Definition filterPinnedIndexes (allowUnpin : bool) (indexes : list IndexUsage)
    : list IndexUsage * list IndexUsage :=
  let updated := unpin allowUnpin <$> indexes in
  (updated, List.filter (fun index => (length (Hosts index) =? 0)%nat) updated).




(** The indexes that the loop of [indexUsageFromSpec] builds for a spec,
    in order. *)
Definition replicas_of `{SizingMethod} (uuid : Z) (spec : IndexSpec)
    : list IndexUsage :=
  (fun i => new_index uuid spec (Z.of_nat i)) <$> seq 0 (Z.to_nat (spec_Replica spec)).

End Rebalance.

(** * Properties *)

Module GoIntFacts.

Import GoInt.

Lemma wrap_small z : in_int z -> wrap z = z.
Proof.
  unfold in_int, min_int, max_int, wrap. intros H.
  rewrite Z.mod_small; lia.
Qed.

Lemma wrap_range z : in_int (wrap z).
Proof.
  unfold in_int, min_int, max_int, wrap.
  pose proof (Z.mod_pos_bound (z + 2 ^ 63) (2 ^ 64) ltac:(lia)). lia.
Qed.

End GoIntFacts.

(** ** Index definitions *)

Module CommonFacts.

Import Common.

Lemma str_ne_refl s : str_ne s s = false.
Proof. unfold str_ne. by rewrite String.eqb_refl. Qed.

Lemma bool_ne_refl b : bool_ne b b = false.
Proof. by destruct b. Qed.

Lemma secExprs_inner_all s l :
  secExprs_inner s l = true <-> Forall (fun s2 => s2 = s) l.
Proof.
  induction l as [|s2 l IH]; simpl.
  - split; [constructor | done].
  - unfold str_ne. destruct (String.eqb_spec s s2) as [->|Hne]; simpl.
    + rewrite IH. split; [by constructor | by inversion 1].
    + split; [done | inversion 1; congruence].
Qed.

(** C9.  The outcome of [IsEquivalentIndex d1 d2] does not depend on the
    [Using] field of [d2]: the [Using] test reads [d1] on both sides, so
    replacing [d2.Using] by any value [u] leaves the result unchanged. *)
Theorem IsEquivalentIndex_ignores_Using_of_d2 :
  forall (d1 d2 : IndexDefn) (u : string),
    IsEquivalentIndex d1 d2 = IsEquivalentIndex d1 (set_Using u d2).
Proof. intros d1 d2 u. reflexivity. Qed.

(** Two definitions that differ in [Using] only are reported equivalent. *)
Example IsEquivalentIndex_forestdb_memdb :
  IsEquivalentIndex (set_Using "forestdb" zero_IndexDefn)
                    (set_Using "memdb" zero_IndexDefn) = true.
Proof. reflexivity. Qed.

(** C10.  [IsEquivalentIndex] is not reflexive: the nested loops compare
    every expression of [d1] with every expression of [d2], so a definition
    with the two distinct expressions ["a"] and ["b"] is reported as not
    equivalent to itself. *)
Theorem IsEquivalentIndex_two_keys_not_reflexive :
  IsEquivalentIndex defn_two_keys defn_two_keys = false.
Proof. reflexivity. Qed.

(** On itself the function answers [true] exactly when all secondary
    expressions of the definition are one and the same string. *)
Lemma IsEquivalentIndex_self (d : IndexDefn) :
  IsEquivalentIndex d d = true <->
  forall s1 s2, s1 ∈ SecExprs d -> s2 ∈ SecExprs d -> s1 = s2.
Proof.
  unfold IsEquivalentIndex.
  rewrite !str_ne_refl, bool_ne_refl. simpl.
  generalize (SecExprs d) at 1 3. intros l1.
  induction l1 as [|s l1 IH]; simpl.
  - split; [intros _ s1 s2 H; by apply elem_of_nil in H | done].
  - destruct (secExprs_inner s (SecExprs d)) eqn:E.
    + apply secExprs_inner_all in E. rewrite Forall_forall in E.
      rewrite IH. split.
      * intros H s1 s2 [->|H1]%elem_of_cons H2; [symmetry; by apply E | by apply H].
      * intros H s1 s2 H1 H2. apply H; [by right | done].
    + split; [done |]. intros H.
      assert (secExprs_inner s (SecExprs d) = true) as E'; [| congruence].
      apply secExprs_inner_all, Forall_forall. intros x Hx.
      symmetry. apply H; [by left | done].
Qed.

End CommonFacts.

(** ** The retry wrapper *)

Module ClientFacts.

Import GoInt GoIntFacts Client.

Example Contains_refused :
  connection_refused "dial tcp 127.0.0.1:9999: connection refused" = true.
Proof. reflexivity. Qed.

Example Contains_other :
  connection_refused "feed.invalidBucket" = false.
Proof. reflexivity. Qed.

Example withRetry_S2 :
  withRetry client_S2 fails_twice 10 = Returned None 3 [100000000; 200000000].
Proof. reflexivity. Qed.

Example withRetry_S2_gives_up :
  withRetry client_S2 always_refused 10 =
  Returned (Some "connection refused") 3 [100000000; 200000000].
Proof. reflexivity. Qed.


Lemma loop_not_refused c fn fuel st e :
  fn (calls st) = Some e -> connection_refused e = false ->
  withRetry_loop c fn (S fuel) st = Returned (Some e) (S (calls st)) (sleeps st).
Proof. intros Hfn He. simpl. by rewrite Hfn, He. Qed.

Lemma loop_success c fn fuel st :
  fn (calls st) = None ->
  withRetry_loop c fn (S fuel) st = Returned None (S (calls st)) (sleeps st).
Proof. intros Hfn. simpl. by rewrite Hfn. Qed.

Lemma loop_no_interval c fn fuel st :
  interval st <= 0 ->
  withRetry_loop c fn (S fuel) st = Returned (fn (calls st)) (S (calls st)) (sleeps st).
Proof.
  intros Hi. simpl. destruct (fn (calls st)) as [msg|]; [|done].
  destruct (connection_refused msg); simpl; [|done].
  by rewrite (proj2 (Z.leb_le _ _) Hi).
Qed.

Lemma loop_retry c fn fuel st :
  refused (fn (calls st)) -> 0 < interval st ->
  snd (count_down (retries st)) = false ->
  withRetry_loop c fn (S fuel) st = withRetry_loop c fn fuel (retried c st).
Proof.
  intros (msg & Hfn & Hmsg) Hi Hcd. simpl. rewrite Hfn, Hmsg. simpl.
  rewrite (proj2 (Z.leb_gt _ _) Hi). unfold retried.
  destruct (count_down (retries st)) as [m expired]. simpl in *. by subst.
Qed.

Lemma count_down_positive m :
  0 < m -> count_down m = (m - 1, (m - 1 =? 0)).
Proof. intros H. unfold count_down. by rewrite (proj2 (Z.ltb_lt _ _) H). Qed.

Lemma count_down_unlimited m : m <= 0 -> count_down m = (m, false).
Proof. intros H. unfold count_down. by rewrite (proj2 (Z.ltb_ge _ _) H). Qed.

(** With a positive counter [m] the loop calls [fn] at most [m] more times. *)
Lemma loop_attempts_bound c fn fuel : forall st,
  0 < retries st ->
  (attempts (withRetry_loop c fn fuel st) <= calls st + Z.to_nat (retries st))%nat.
Proof.
  induction fuel as [|fuel IH]; intros st Hm; simpl; [lia|].
  destruct (fn (calls st)) as [msg|]; simpl; [|lia].
  destruct (connection_refused msg); simpl; [|lia].
  destruct (interval st <=? 0); simpl; [lia|].
  rewrite count_down_positive by done.
  destruct (Z.eqb_spec (retries st - 1) 0) as [E|E]; simpl; [lia|].
  etransitivity; [apply IH; simpl; lia|]. simpl. lia.
Qed.

(** ... and has returned once [m] iterations have been executed. *)
Lemma loop_returns c fn fuel : forall st,
  0 < retries st -> retries st <= Z.of_nat fuel ->
  has_returned (withRetry_loop c fn fuel st).
Proof.
  induction fuel as [|fuel IH]; intros st Hm Hf; simpl; [lia|].
  destruct (fn (calls st)) as [msg|]; simpl; [|done].
  destruct (connection_refused msg); simpl; [|done].
  destruct (interval st <=? 0); simpl; [done|].
  rewrite count_down_positive by done.
  destruct (Z.eqb_spec (retries st - 1) 0) as [E|E]; simpl; [done|].
  apply IH; simpl; lia.
Qed.

(** As long as every attempt is refused, the interval is positive and the
    counter has not expired, the loop goes on. *)
Lemma loop_keeps_running c fn n : forall st,
  (forall j, (j < n)%nat ->
     let sj := Nat.iter j (retried c) st in
     refused (fn (calls sj)) /\ 0 < interval sj /\
     snd (count_down (retries sj)) = false) ->
  withRetry_loop c fn n st = Running (Nat.iter n (retried c) st).
Proof.
  induction n as [|n IH]; intros st H; [done|].
  destruct (H 0%nat ltac:(lia)) as (Hr & Hi & Hc). simpl in Hr, Hi, Hc.
  rewrite loop_retry by done. rewrite IH.
  - by rewrite Nat.iter_succ_r.
  - intros j Hj. specialize (H (S j) ltac:(lia)).
    by rewrite Nat.iter_succ_r in H.
Qed.

Lemma iter_retried_unlimited c n :
  maxRetries c <= 0 ->
  Nat.iter n (retried c) (init c) =
  mkLoop n (interval_at c n) (maxRetries c) (sleeps_before c n).
Proof.
  intros Hm. induction n as [|n IH]; [done|].
  simpl. rewrite IH. unfold retried. simpl.
  by rewrite count_down_unlimited.
Qed.

Lemma interval_at_no_backoff c n :
  expBackoff c <= 0 -> interval_at c n = retryInterval c.
Proof.
  intros He. induction n as [|n IH]; [done|]. simpl. rewrite IH.
  unfold backoff. by rewrite (proj2 (Z.ltb_ge _ _) He).
Qed.

Lemma sleep_duration_exact i :
  0 <= i * Millisecond <= max_int -> sleep_duration i = i * Millisecond.
Proof.
  intros H. unfold sleep_duration. apply wrap_small.
  unfold in_int, min_int, max_int in *. lia.
Qed.

(** The retry wrapper, as the code has it.  For every configuration [c] and
    every behaviour [fn] of the wrapped call:
    - an error that is not connection-refused is returned at once, with no
      further call and no sleep;
    - a connection-refused error met with a positive interval and an
      unexpired counter makes the client sleep [interval] milliseconds (a
      64-bit nanosecond duration), multiply the interval by [expBackoff]
      (64-bit wrap-around) when [expBackoff > 0], and call again;
    - with [maxRetries > 0] at most [maxRetries] calls are made in total,
      and the wrapper has returned after that many iterations;
    - with [maxRetries = 0] the retries go on for as long as the interval
      in force stays positive, hence without end when there is no back-off;
    - a [retryInterval] of zero (or less) disables retry: the result of the
      first call is returned. *)
Theorem withRetry_contract (c : Client) (fn : nat -> error) :
  (forall fuel st e,
      fn (calls st) = Some e -> connection_refused e = false ->
      withRetry_loop c fn (S fuel) st =
      Returned (Some e) (S (calls st)) (sleeps st))
  /\ (forall fuel st,
      refused (fn (calls st)) -> 0 < interval st ->
      snd (count_down (retries st)) = false ->
      withRetry_loop c fn (S fuel) st =
      withRetry_loop c fn fuel
        (mkLoop (S (calls st)) (backoff c (interval st))
                (fst (count_down (retries st)))
                (sleeps st ++ [sleep_duration (interval st)])))
  /\ (forall i, 0 <= i * Millisecond <= max_int ->
      sleep_duration i = i * Millisecond)
  /\ (forall i, 0 < expBackoff c -> backoff c i = wrap (i * expBackoff c))
  /\ (forall i, expBackoff c <= 0 -> backoff c i = i)
  /\ (0 < maxRetries c -> forall fuel,
      Z.of_nat (attempts (withRetry c fn fuel)) <= maxRetries c /\
      (maxRetries c <= Z.of_nat fuel -> has_returned (withRetry c fn fuel)))
  /\ (maxRetries c = 0 -> forall n,
      (forall j, (j < n)%nat -> refused (fn j) /\ 0 < interval_at c j) ->
      withRetry c fn n =
      Running (mkLoop n (interval_at c n) 0 (sleeps_before c n)))
  /\ (maxRetries c = 0 -> expBackoff c <= 0 -> 0 < retryInterval c ->
      (forall j, refused (fn j)) ->
      forall n, ~ has_returned (withRetry c fn n) /\
                attempts (withRetry c fn n) = n)
  /\ (retryInterval c <= 0 -> forall fuel,
      withRetry c fn (S fuel) = Returned (fn 0%nat) 1 []).
Proof.
  assert (Hrun : maxRetries c = 0 -> forall n,
      (forall j, (j < n)%nat -> refused (fn j) /\ 0 < interval_at c j) ->
      withRetry c fn n =
      Running (mkLoop n (interval_at c n) 0 (sleeps_before c n))).
  { intros Hm n H. unfold withRetry. rewrite loop_keeps_running.
    - rewrite iter_retried_unlimited by lia. by rewrite Hm.
    - intros j Hj. rewrite iter_retried_unlimited by lia. simpl.
      destruct (H j Hj) as [Hr Hi]. repeat split; try done.
      by rewrite count_down_unlimited by lia. }
  repeat apply conj.
  - intros fuel st e. apply loop_not_refused.
  - intros fuel st. apply loop_retry.
  - apply sleep_duration_exact.
  - intros i H. unfold backoff. by rewrite (proj2 (Z.ltb_lt _ _) H).
  - intros i H. unfold backoff. by rewrite (proj2 (Z.ltb_ge _ _) H).
  - intros Hm fuel. split.
    + pose proof (loop_attempts_bound c fn fuel (init c) Hm) as H.
      unfold withRetry. simpl in H. lia.
    + intros Hf. by apply loop_returns.
  - exact Hrun.
  - intros Hm He Hi Hall n. rewrite Hrun; [simpl; tauto | done |].
    intros j _. split; [done|]. by rewrite interval_at_no_backoff.
  - intros Hi fuel. unfold withRetry. by rewrite loop_no_interval.
Qed.

(** C1.  The wrapper is to retry without end when [maxRetries] is zero and
    [retryInterval] is positive ("if maxRetries is ZERO, will perform
    indefinite retry", client.go:86-89).  It does not: [interval *=
    expBackoff] is not guarded against overflow, with the multiplier [2^62]
    the 64-bit interval wraps to zero at the second back-off, and the third
    refused attempt is returned to the caller although every attempt was
    refused and no attempt limit is set. *)
Theorem withRetry_gives_up_after_overflow :
  maxRetries client_overflow = 0 /\
  0 < retryInterval client_overflow /\
  (forall k, refused (always_refused k)) /\
  interval_at client_overflow 2 = 0 /\
  withRetry client_overflow always_refused 3 =
  Returned (Some "connection refused") 3 [1000000; 0].
Proof.
  repeat apply conj; try reflexivity.
  intros k. by exists "connection refused".
Qed.

Lemma withRetry_contract_witness :
  withRetry_loop client_S2 fails_twice 1 (mkLoop 2 400 1 [100000000; 200000000]) =
    Returned None 3 [100000000; 200000000]
  /\ Z.of_nat (attempts (withRetry client_S2 always_refused 7)) <= 3
  /\ has_returned (withRetry client_S2 always_refused 7)
  /\ withRetry client_forever always_refused 4 =
     Running (mkLoop 4 100 0 [100000000; 100000000; 100000000; 100000000])
  /\ sleep_duration 100 = 100000000
  /\ withRetry (mkClient "localhost:9999" 1024 0 3 2) always_refused 5 =
     Returned (Some "connection refused") 1 [].
Proof.
  destruct (withRetry_contract client_S2 always_refused)
    as (_ & _ & Hdur & _ & _ & Hmax & _).
  destruct (withRetry_contract client_forever always_refused)
    as (_ & _ & _ & _ & _ & _ & Hrun & _).
  destruct (withRetry_contract (mkClient "localhost:9999" 1024 0 3 2) always_refused)
    as (_ & _ & _ & _ & _ & _ & _ & _ & Hoff).
  repeat apply conj.
  - reflexivity.
  - exact (proj1 (Hmax eq_refl 7%nat)).
  - refine (proj2 (Hmax eq_refl 7%nat) _). simpl. lia.
  - apply (Hrun eq_refl 4%nat). intros j Hj. split.
    + by exists "connection refused".
    + rewrite interval_at_no_backoff; simpl; lia.
  - apply Hdur. unfold Millisecond, max_int. lia.
  - apply (Hoff ltac:(simpl; lia) 4%nat).
Defined.

End ClientFacts.

(** ** The KV data path *)

Module ProjectorFacts.

Import Projector.

Section DataPath.

Context `{Externals}.

Implicit Types (k : KVData) (s : Scatter) (m : UprEvent) (msg : list iface).

(** *** Control commands and their replies *)

Lemma AddEngines_replies_once es ps respch s :
  exists s', handle_command (AddEngines_cmd es ps respch) s = Continue s' /\
             replies s' = replies s ++ [(respch, ReplyNil)].
Proof. eexists. split; reflexivity. Qed.

Lemma DeleteEngines_replies_once keys respch s :
  exists s', handle_command (DeleteEngines_cmd keys respch) s = Continue s' /\
             replies s' = replies s ++ [(respch, ReplyNil)].
Proof. eexists. split; reflexivity. Qed.

Lemma GetStatistics_replies_once respch s :
  exists s' stats, handle_command (GetStatistics_cmd respch) s = Continue s' /\
             replies s' = replies s ++ [(respch, stats)].
Proof. do 2 eexists. split; reflexivity. Qed.

Lemma Close_replies_once respch s :
  exists s', handle_command (Close_cmd respch) s = Break s' /\
             replies s' = replies s ++ [(respch, ReplyNil)].
Proof. eexists. split; reflexivity. Qed.

(** C2.  The message built by [UpdateTs] has two elements, the command byte
    and the timestamp: the reply channel is not in it.  The handler reads
    the channel from position 2, which panics with an index out of range;
    no reply is sent, [runScatter] is left through its deferred function
    and [finch] is closed.  The four other commands carry the channel where
    the handler reads it and are answered once. *)
Theorem UpdateTs_is_never_answered (t ts0 : TsVbuuid) (respch : nat) (s : Scatter)
    (k : KVData) :
  UpdateTs_cmd t respch !! 2%nat = None
  /\ handle_command (UpdateTs_cmd t respch) s =
     Crash (with_ts (Union (ts s) t) s) "index out of range"
  /\ runScatter ts0 [Sbch (UpdateTs_cmd t respch)] k =
     Crashed (mkScatter (deferred k) (Union ts0 t) 0 []) "index out of range" []
  /\ finch_closed (deferred k) = true.
Proof. repeat apply conj; reflexivity. Qed.

(** *** The routine map *)

Lemma lookup_broadcast call k v :
  vrs (broadcast call k) !! v = vr_call call <$> vrs k !! v.
Proof. unfold broadcast. simpl. apply lookup_fmap. Qed.

Lemma keyed_broadcast call k : keyed k -> keyed (broadcast call k).
Proof.
  intros Hk v vr. rewrite lookup_broadcast.
  destruct (vrs k !! v) as [vr0|] eqn:E; simpl; [|done].
  intros [= <-]. simpl. by apply Hk.
Qed.

Lemma keyed_same_vrs k k' : vrs k' = vrs k -> keyed k -> keyed k'.
Proof. unfold keyed. by intros ->. Qed.

Lemma keyed_insert k v vr k' :
  vrs k' = <[v := vr]> (vrs k) -> vr_vbno vr = v -> keyed k -> keyed k'.
Proof.
  intros E Hv Hk v' vr'. rewrite E, lookup_insert.
  case_decide; [by intros [= <-]; subst | by apply Hk].
Qed.

Lemma keyed_delete k v k' :
  vrs k' = delete v (vrs k) -> keyed k -> keyed k'.
Proof.
  intros E Hk v' vr'. rewrite E, lookup_delete.
  case_decide; [done | by apply Hk].
Qed.

Lemma scatterMutation_keyed m t k k' :
  scatterMutation m t k = Done k' -> keyed k -> keyed k'.
Proof.
  unfold scatterMutation. intros E Hk.
  destruct (ev_Opcode m).
  - destruct (is_ROLLBACK (ev_Status m)); [injection E as <-; by eapply keyed_same_vrs|].
    destruct (is_SUCCESS (ev_Status m)); simpl in E;
      [|injection E as <-; by eapply keyed_same_vrs].
    destruct (vrs k !! ev_VBucket m) eqn:El;
      [injection E as <-; by eapply keyed_same_vrs|].
    destruct (Latest (ev_FailoverLog m)) as [[vbuuid sq] [err|]]; [done|].
    injection E as <-. eapply keyed_insert; [reflexivity| reflexivity | done].
  - destruct (vrs k !! ev_VBucket m) as [vr|] eqn:El;
      [|injection E as <-; by eapply keyed_same_vrs].
    destruct (is_SUCCESS (ev_Status m)); simpl in E;
      [|injection E as <-; by eapply keyed_same_vrs].
    injection E as <-. eapply keyed_delete; [reflexivity | done].
  - destruct (vrs k !! ev_VBucket m) as [vr|] eqn:El; injection E as <-; [|done].
    eapply keyed_insert; [reflexivity | | done]. simpl. by apply Hk.
  - destruct (vrs k !! ev_VBucket m) as [vr|] eqn:El; injection E as <-; [|done].
    eapply keyed_insert; [reflexivity | | done]. simpl. by apply Hk.
  - destruct (vrs k !! ev_VBucket m) as [vr|] eqn:El; injection E as <-; [|done].
    eapply keyed_insert; [reflexivity | | done]. simpl. by apply Hk.
  - destruct (vrs k !! ev_VBucket m) as [vr|] eqn:El; injection E as <-; [|done].
    eapply keyed_insert; [reflexivity | | done]. simpl. by apply Hk.
  - by injection E as <-.
Qed.

Lemma handle_command_keyed msg s :
  keyed (kvdata s) -> keyed (kvdata (step_state (handle_command msg s))).
Proof.
  intros Hk. unfold handle_command.
  destruct (msg_byte msg 0) as [cmd|]; [|done].
  destruct (cmd =? kvCmdAddEngines).
  { destruct (msg_chan msg 3); [|done].
    destruct (msg_engines msg 1); [|done].
    destruct (msg_endpoints msg 2); simpl; [|done].
    by apply keyed_broadcast. }
  destruct (cmd =? kvCmdDelEngines).
  { destruct (msg_keys msg 1); [|done].
    destruct (msg_chan msg 2); simpl; [|done].
    set (k1 := broadcast _ _).
    apply (keyed_same_vrs k1); [done | by apply keyed_broadcast]. }
  destruct (cmd =? kvCmdTs).
  { destruct (msg_ts msg 1); [|done]. by destruct (msg_chan msg 2). }
  destruct (cmd =? kvCmdGetStats).
  { destruct (msg_chan msg 1); simpl; [|done]. by apply keyed_broadcast. }
  destruct (cmd =? kvCmdClose); [|done].
  by destruct (msg_chan msg 1).
Qed.

Lemma scatter_step_keyed c s :
  keyed (kvdata s) -> keyed (kvdata (step_state (scatter_step c s))).
Proof.
  intros Hk. destruct c as [m| |msg]; simpl; [|done|by apply handle_command_keyed].
  destruct (scatterMutation m (ts s) (kvdata s)) as [k'|] eqn:E; [|done].
  case_decide; simpl; by eapply scatterMutation_keyed.
Qed.

Lemma scatter_loop_keyed inputs : forall s,
  keyed (kvdata s) -> keyed (kvdata (state_of (scatter_loop inputs s))).
Proof.
  induction inputs as [|c rest IH]; intros s Hk; [done|]. simpl.
  pose proof (scatter_step_keyed c s Hk) as Hs.
  destruct (scatter_step c s); simpl in *; [by apply IH | done | done].
Qed.

Lemma deferred_keyed k : keyed k -> keyed (deferred k).
Proof.
  intros Hk.
  apply (keyed_same_vrs (broadcast (VrEvent synthetic_StreamEnd) k)); [done|].
  by apply keyed_broadcast.
Qed.

Lemma runScatter_keyed t inputs k :
  keyed k -> keyed (kvdata (state_of (runScatter t inputs k))).
Proof.
  intros Hk. unfold runScatter.
  pose proof (scatter_loop_keyed inputs (mkScatter k t 0 []) Hk) as Hs.
  destruct (scatter_loop inputs (mkScatter k t 0 [])); simpl in *;
    [by apply deferred_keyed | by apply deferred_keyed | done].
Qed.

Lemma NewKVData_keyed tp cfg b kv es ps : keyed (NewKVData tp cfg b kv es ps).
Proof. intros v vr. simpl. by rewrite lookup_empty. Qed.

(** Under [keyed] the routines serving vbucket [v] are the entry of the map
    at [v], if any. *)
Lemma routines_for_length v k :
  keyed k ->
  length (routines_for v k) = match vrs k !! v with Some _ => 1%nat | None => 0%nat end.
Proof.
  unfold keyed, routines_for. generalize (vrs k). clear k.
  intros mp. induction mp as [|i x mp Hi Hfk IH] using map_first_key_ind.
  - intros _. by rewrite map_to_list_empty, lookup_empty.
  - intros Hk. rewrite map_to_list_insert_first_key by done.
    rewrite fmap_cons. simpl. rewrite filter_cons.
    assert (vr_vbno x = i) as Hx by (apply Hk; by rewrite lookup_insert_eq).
    assert (IH' : length (filter (fun vr => vr_vbno vr = v) (map_to_list mp).*2) =
                  match mp !! v with Some _ => 1%nat | None => 0%nat end).
    { apply IH. intros v' vr' E. apply Hk. rewrite lookup_insert_ne; [done|].
      intros ->. congruence. }
    case_decide as Hd; simpl; rewrite IH'.
    + assert (i = v) as -> by congruence. by rewrite Hi, lookup_insert_eq.
    + rewrite lookup_insert_ne; [done | congruence].
Qed.

Lemma routines_for_at_most_one v k :
  keyed k -> (length (routines_for v k) <= 1)%nat.
Proof.
  intros Hk. rewrite routines_for_length by done.
  destruct (vrs k !! v); lia.
Qed.

(** *** Leaving the scatter loop *)

Lemma handle_command_break msg s :
  (exists s', handle_command msg s = Break s') <-> is_Close msg.
Proof.
  unfold is_Close, handle_command. split.
  - intros [s' E]. destruct (msg_byte msg 0) as [cmd|]; [|done].
    destruct (cmd =? kvCmdAddEngines).
    { destruct (msg_chan msg 3); [|done]. destruct (msg_engines msg 1); [|done].
      by destruct (msg_endpoints msg 2). }
    destruct (cmd =? kvCmdDelEngines).
    { destruct (msg_keys msg 1); [|done]. by destruct (msg_chan msg 2). }
    destruct (cmd =? kvCmdTs).
    { destruct (msg_ts msg 1); [|done]. by destruct (msg_chan msg 2). }
    destruct (cmd =? kvCmdGetStats).
    { by destruct (msg_chan msg 1). }
    destruct (Z.eqb_spec cmd kvCmdClose) as [Hc|]; [|done].
    rewrite Hc. destruct (msg_chan msg 1) as [respch|]; [|done]. eauto.
  - intros [-> [respch ->]]. simpl. eauto.
Qed.

Lemma scatter_step_break c s :
  (exists s', scatter_step c s = Break s') <-> leaves_loop c s.
Proof.
  destruct c as [m| |msg]; simpl.
  - destruct (scatterMutation m (ts s) (kvdata s)) as [k|r].
    + case_decide as Hsz.
      * split; [|eauto]. intros _. exists k. split; [done|].
        by apply map_size_empty_iff.
      * split; [by intros [? ?]|]. intros (k' & [= <-] & Hk').
        by apply map_size_empty_iff in Hk'.
    + split; [by intros [? ?] | by intros (? & ? & _)].
  - split; eauto.
  - apply handle_command_break.
Qed.

Lemma scatter_loop_cons c rest s :
  scatter_loop (c :: rest) s =
  match scatter_step c s with
  | Continue s1 => scatter_loop rest s1
  | Break s1 => Exited s1 rest
  | Crash s1 r => Crashed s1 r rest
  end.
Proof. done. Qed.

(** C3 (as amended).  An iteration of the scatter loop executes
    [break loop] exactly when the upstream channel is found closed (whether
    or not routines remain), or the routine map is empty once the received
    event has been scattered (whether or not the upstream has closed), or a
    [Close] command is received.  Over a schedule of inputs the loop stops
    at the first input at which one of these holds, leaving the rest
    unread; as long as none of them holds (and the goroutine does not
    panic) it consumes every input and goes back to waiting. *)
Theorem scatter_loop_exit (inputs : list select_case) (s : Scatter) :
  (forall c s0, (exists s', scatter_step c s0 = Break s') <-> leaves_loop c s0)
  /\ match scatter_loop inputs s with
     | Exited s' rest =>
         exists pre c s0,
           inputs = pre ++ c :: rest /\ scatter_loop pre s = Waiting s0 /\
           leaves_loop c s0 /\ scatter_step c s0 = Break s'
     | Crashed s' r rest =>
         exists pre c s0,
           inputs = pre ++ c :: rest /\ scatter_loop pre s = Waiting s0 /\
           scatter_step c s0 = Crash s' r
     | Waiting s' =>
         forall pre c post, inputs = pre ++ c :: post ->
           exists s0, scatter_loop pre s = Waiting s0 /\ ~ leaves_loop c s0
     end.
Proof.
  split; [apply scatter_step_break|].
  revert s. induction inputs as [|c0 rest0 IH]; intros s.
  - simpl. intros [|??] ? ? ?; discriminate.
  - rewrite scatter_loop_cons.
    destruct (scatter_step c0 s) as [s1|s1|s1 r] eqn:Es.
    + specialize (IH s1). destruct (scatter_loop rest0 s1) as [s' rest|s' r rest|s'].
      * destruct IH as (pre & c & s0 & -> & Hpre & Hl & Hb).
        exists (c0 :: pre), c, s0. rewrite scatter_loop_cons, Es. done.
      * destruct IH as (pre & c & s0 & -> & Hpre & Hb).
        exists (c0 :: pre), c, s0. rewrite scatter_loop_cons, Es. done.
      * intros [|c1 pre] c post E; simpl in E; injection E as <- E.
        -- exists s. split; [done|]. rewrite <- scatter_step_break, Es.
           by intros [? ?].
        -- destruct (IH pre c post E) as (s0 & Hpre & Hn).
           exists s0. by rewrite scatter_loop_cons, Es.
    + exists [], c0, s. repeat split; try done.
      apply scatter_step_break. eauto.
    + exists [], c0, s. done.
Qed.

(** *** C4 and C5: routines and vbuckets *)

Lemma scatterMutation_duplicate_StreamRequest m t k :
  is_StreamRequest_SUCCESS m -> is_Some (vrs k !! ev_VBucket m) ->
  exists k', scatterMutation m t k = Done k' /\ vrs k' = vrs k /\
             ended k' = ended k.
Proof.
  intros [Ho Hs] [vr Hvr]. unfold scatterMutation. rewrite Ho, Hs, Hvr. simpl.
  eauto.
Qed.

Lemma scatterMutation_StreamEnd m t k :
  is_StreamEnd_SUCCESS m ->
  exists k', scatterMutation m t k = Done k' /\
             vrs k' = delete (ev_VBucket m) (vrs k).
Proof.
  intros [Ho Hs]. unfold scatterMutation. rewrite Ho, Hs.
  destruct (vrs k !! ev_VBucket m) as [vr|] eqn:E; simpl.
  - eauto.
  - eexists. split; [done|]. simpl. symmetry. by apply delete_id.
Qed.

(** C4.  At every point of every run of a data path made by [NewKVData],
    the routine map holds at most one routine for any vbucket number; a
    [StreamRequest] with status [SUCCESS] for a vbucket that is in the map
    leaves the map as it is, and a [StreamEnd] with status [SUCCESS] takes
    the entry of its vbucket out of the map (and no other). *)
Theorem at_most_one_routine_per_vbucket :
  (forall tp cfg b kv es ps (t : TsVbuuid) (inputs : list select_case) (v : Z),
      let k0 := NewKVData tp cfg b kv es ps in
      (length (routines_for v (kvdata (state_of (scatter_loop inputs (start t k0)))))
         <= 1)%nat /\
      (length (routines_for v (kvdata (state_of (runScatter t inputs k0))))
         <= 1)%nat)
  /\ (forall m t k,
      is_StreamRequest_SUCCESS m -> is_Some (vrs k !! ev_VBucket m) ->
      exists k', scatterMutation m t k = Done k' /\ vrs k' = vrs k)
  /\ (forall m t k,
      is_StreamEnd_SUCCESS m ->
      exists k', scatterMutation m t k = Done k' /\
                 vrs k' !! ev_VBucket m = None /\
                 forall v, v <> ev_VBucket m -> vrs k' !! v = vrs k !! v).
Proof.
  repeat apply conj.
  - intros tp cfg b kv es ps t inputs v k0. split.
    + apply routines_for_at_most_one, scatter_loop_keyed, NewKVData_keyed.
    + apply routines_for_at_most_one, runScatter_keyed, NewKVData_keyed.
  - intros m t k Hm Hv.
    destruct (scatterMutation_duplicate_StreamRequest m t k Hm Hv)
      as (k' & E & Hvrs & _). eauto.
  - intros m t k Hm.
    destruct (scatterMutation_StreamEnd m t k Hm) as (k' & E & Hvrs).
    exists k'. rewrite Hvrs. repeat split; [done | apply lookup_delete_eq |].
    intros v Hv. by rewrite lookup_delete_ne.
Qed.

(** C5.  A [StreamRequest] with status [SUCCESS] for a vbucket that has no
    routine in the map, whose failover log has a latest entry [vbuuid],
    makes a new routine for that vbucket with that [vbuuid] and with the
    sequence number that the current restart timestamp gives for the
    vbucket; the routine is handed the engines and endpoints registered at
    that moment, then the event (carrying the same two values), and is
    filed in the map under the vbucket number. *)
Theorem scatterMutation_starts_routine (m : UprEvent) (t : TsVbuuid) (k : KVData)
    (vbuuid seqno0 : Z) :
  is_StreamRequest_SUCCESS m ->
  vrs k !! ev_VBucket m = None ->
  Latest (ev_FailoverLog m) = (vbuuid, seqno0, None) ->
  let vbno := ev_VBucket m in
  let seqno := fst (SeqnoFor t vbno) in
  let m' := set_Seqno seqno (set_VBuuid vbuuid m) in
  let vr := mkVbucketRoutine (topic k) (bucket k) (kvaddr k) vbno vbuuid seqno
              (feed_config k)
              [VrAddEngines (engines k) (endpoints k); VrEvent m'] in
  exists k',
    scatterMutation m t k = Done k' /\
    vrs k' = <[vbno := vr]> (vrs k) /\
    vrs k' !! vbno = Some vr /\
    (forall v, v <> vbno -> vrs k' !! v = vrs k !! v) /\
    engines k' = engines k /\ endpoints k' = endpoints k /\
    feed_posts k' = feed_posts k ++ [PostStreamRequest (bucket k) (kvaddr k) m'].
Proof.
  intros [Ho Hs] Hv Hl vbno seqno m' vr.
  unfold scatterMutation. rewrite Ho, Hs. simpl. rewrite Hv, Hl.
  eexists. split; [reflexivity|]. simpl.
  repeat split; [apply lookup_insert_eq|].
  intros v Hne. by rewrite lookup_insert_ne.
Qed.

End DataPath.

(** *** Runs on concrete inputs *)

#[local] Existing Instance sample.

(** The claim as first stated lets the loop exit only when the map is empty
    and the upstream has closed, or on [Close].  In the first run the
    upstream stays open and no command arrives: the loop is left after the
    stream end of vbucket 0, with an event still unread.  In the second the
    upstream closes while the routine of vbucket 0 is in the map: the loop
    is left all the same. *)
Lemma scatter_loop_exits_on_either_condition :
  let run1 := @runScatter sample sample_ts
                [Mutch (StreamRequest 0 SUCCESS); Mutch (StreamEnd 0 SUCCESS);
                 Mutch (StreamRequest 1 SUCCESS)] sample_kvdata in
  let run2 := @scatter_loop sample
                [Mutch (StreamRequest 0 SUCCESS); MutchClosed]
                (@start sample sample_ts sample_kvdata) in
  (has_exited run1 = true /\ unread run1 = [Mutch (StreamRequest 1 SUCCESS)])
  /\ (has_exited run2 = true /\ size (vrs (kvdata (state_of run2))) = 1%nat).
Proof. vm_compute. repeat split. Qed.

Lemma scatter_loop_exit_witness :
  @leaves_loop sample MutchClosed (@start sample sample_ts sample_kvdata)
  /\ ~ @leaves_loop sample (Sbch []) (@start sample sample_ts sample_kvdata).
Proof.
  destruct (@scatter_loop_exit sample [] (@start sample sample_ts sample_kvdata))
    as [Hiff _].
  split.
  - apply Hiff. eexists. reflexivity.
  - intros Hl. apply Hiff in Hl as [s' Hs']. discriminate Hs'.
Defined.

Lemma at_most_one_routine_per_vbucket_witness :
  (exists k', @scatterMutation sample (StreamRequest 0 SUCCESS) sample_ts
                sample_running = Done k' /\
              vrs k' = vrs sample_running)
  /\ (exists k', @scatterMutation sample (StreamEnd 0 SUCCESS) sample_ts
                   sample_running = Done k' /\
                 vrs k' !! 0 = None).
Proof.
  destruct (@at_most_one_routine_per_vbucket sample) as (_ & Hdup & Hend).
  split.
  - apply Hdup; [split; reflexivity|].
    eexists. apply lookup_singleton_eq.
  - destruct (Hend (StreamEnd 0 SUCCESS) sample_ts sample_running)
      as (k' & E & Hnone & _); [split; reflexivity|]. eauto.
Defined.

Lemma scatterMutation_starts_routine_witness :
  exists k' : @KVData sample,
    @scatterMutation sample (StreamRequest 0 SUCCESS) sample_ts sample_kvdata
      = Done k' /\
    vr_vbuuid <$> vrs k' !! 0 = Some 22 /\
    vr_seqno <$> vrs k' !! 0 = Some 100.
Proof.
  destruct (@scatterMutation_starts_routine sample (StreamRequest 0 SUCCESS)
              sample_ts sample_kvdata 22 50) as (k' & E & _ & Hl & _);
    [split; reflexivity | reflexivity | reflexivity |].
  exists k'. split; [exact E|].
  change (ev_VBucket (StreamRequest 0 SUCCESS)) with 0 in Hl.
  rewrite Hl. split; reflexivity.
Defined.

End ProjectorFacts.

(** ** Plan and rebalance *)

Module PlannerFacts.

Import GoInt GoIntFacts Planner.

(** *** Transfer tokens *)

Section Tokens.

Variables (masterId : string) (change : TopologyChange) (uuids : nat -> string).

Lemma genTransferToken_index_emit indexer index st :
  is_Some (initialNode index) -> is_Some (Defn index) ->
  genTransferToken_index masterId change uuids indexer index st =
  Done (if node_changed (indexer, index)
        then emit masterId change uuids st (indexer, index) else st).
Proof.
  intros [ini Hi] [defn Hd].
  unfold genTransferToken_index, node_changed, emit, token_for, Common.str_ne.
  simpl. rewrite Hi, Hd. simpl. by destruct (negb _).
Qed.

Lemma genTransferToken_indexes_emit indexer indexes : forall st,
  (forall index, index ∈ indexes ->
     is_Some (initialNode index) /\ is_Some (Defn index)) ->
  genTransferToken_indexes masterId change uuids indexer indexes st =
  Done (foldl (emit masterId change uuids) st
          (List.filter node_changed ((fun index => (indexer, index)) <$> indexes))).
Proof.
  induction indexes as [|index rest IH]; intros st Hwf; [done|].
  destruct (Hwf index ltac:(left)) as [Hi Hd]. simpl.
  rewrite genTransferToken_index_emit by done.
  rewrite IH by (intros ? ?; apply Hwf; by right).
  by destruct (node_changed (indexer, index)).
Qed.

Lemma hosted_cons indexer rest live :
  hosted (mkSolution (indexer :: rest) live) =
  ((fun index => (indexer, index)) <$> Indexes indexer) ++
  hosted (mkSolution rest live).
Proof. done. Qed.

Lemma genTransferToken_nodes_emit live placement : forall st,
  from_cluster (mkSolution placement live) ->
  genTransferToken_nodes masterId change uuids placement st =
  Done (foldl (emit masterId change uuids) st (moved (mkSolution placement live))).
Proof.
  induction placement as [|indexer rest IH]; intros st Hwf; [done|].
  simpl. rewrite genTransferToken_indexes_emit.
  - rewrite IH.
    + unfold moved. rewrite hosted_cons, List.filter_app, foldl_app. done.
    + intros p Hp. apply Hwf. rewrite hosted_cons, elem_of_app. by right.
  - intros index Hin. apply (Hwf (indexer, index)).
    rewrite hosted_cons, elem_of_app. left. by apply list_elem_of_fmap_2.
Qed.

Lemma token_id_inj a b : token_id a = token_id b -> a = b.
Proof.
  unfold token_id. intros E. cbv [String.append] in E. by injection E.
Qed.

(** With pairwise distinct identifiers, emitting the tokens of a list of
    moved indexes gives a map with one entry per element of the list. *)
Lemma emit_all (l : list (IndexerNode * IndexUsage)) :
  fresh uuids (length l) ->
  let st := foldl (emit masterId change uuids) (∅, 0%nat) l in
  snd st = length l /\
  size (fst st) = length l /\
  forall id tok,
    fst st !! id = Some tok <->
    exists j p, l !! j = Some p /\ id = token_id (uuids j) /\
                tok = token_for masterId change p.
Proof.
  induction l as [|p0 l IH] using rev_ind; intros Hf.
  - cbn zeta. cbn [foldl fst snd length]. split; [done|]. split; [apply map_size_empty|].
    intros id tok. rewrite lookup_empty. split; [done|].
    by intros (j & p & ? & _).
  - rewrite length_app in Hf. simpl in Hf.
    destruct IH as (Hn & Hsz & Hl).
    { intros i j Hi Hj. apply Hf; lia. }
    cbn zeta in *. rewrite foldl_snoc.
    destruct (foldl (emit masterId change uuids) (∅, 0%nat) l) as [mp n].
    unfold emit. cbn [fst snd] in *. subst n.
    assert (Hnew : mp !! token_id (uuids (length l)) = None).
    { destruct (mp !! token_id (uuids (length l))) as [tok|] eqn:E; [|done].
      apply Hl in E as (j & p & Hj & Hid & _).
      apply token_id_inj, Hf in Hid; [| lia | apply lookup_lt_Some in Hj; lia].
      apply lookup_lt_Some in Hj. lia. }
    repeat split.
    + rewrite length_app. simpl. lia.
    + rewrite map_size_insert_None by done. rewrite length_app. simpl. lia.
    + rewrite lookup_insert. case_decide as Hd.
      * intros [= <-]. exists (length l), p0. split; [|done].
        by rewrite lookup_app_r, Nat.sub_diag.
      * intros Htok. apply Hl in Htok as (j & p & Hj & Hid & Htok).
        exists j, p. split; [|done]. by apply lookup_app_l_Some.
    + intros (j & p & Hj & Hid & Htok). rewrite lookup_insert.
      destruct (decide (j = length l)) as [->|Hne].
      * rewrite lookup_app_r, Nat.sub_diag in Hj by done.
        injection Hj as <-. subst id. rewrite decide_True by done. by subst.
      * assert (j < length l)%nat as Hlt.
        { apply lookup_lt_Some in Hj. rewrite length_app in Hj. simpl in Hj. lia. }
        rewrite lookup_app_l in Hj by done.
        rewrite decide_False.
        -- apply Hl. eauto.
        -- subst id. intros Heq. apply token_id_inj, Hf in Heq; lia.
Qed.

(** Emitting the tokens of a list of moved indexes, whatever the
    identifiers: the map holds, for each identifier drawn, the token of the
    last index that drew it, and nothing else. *)
Lemma emit_last (l : list (IndexerNode * IndexUsage)) :
  let st := foldl (emit masterId change uuids) (∅, 0%nat) l in
  snd st = length l /\
  forall id tok,
    fst st !! id = Some tok <->
    exists j p, l !! j = Some p /\ id = token_id (uuids j) /\
                tok = token_for masterId change p /\
                forall j', (j < j' < length l)%nat -> uuids j' <> uuids j.
Proof.
  induction l as [|p0 l IH] using rev_ind.
  - cbn zeta. cbn [foldl fst snd length]. split; [done|].
    intros id tok. rewrite lookup_empty. split; [done|].
    by intros (j & p & ? & _).
  - destruct IH as (Hn & Hl).
    cbn zeta in *. rewrite foldl_snoc.
    destruct (foldl (emit masterId change uuids) (∅, 0%nat) l) as [mp n].
    unfold emit. cbn [fst snd] in *. subst n.
    rewrite length_app. cbn [length]. split; [lia|].
    intros id tok. rewrite lookup_insert. split.
    + case_decide as Hd.
      * intros [= <-]. exists (length l), p0. split; [|split; [done|split; [done|]]].
        -- by rewrite lookup_app_r, Nat.sub_diag.
        -- intros j' Hj'. lia.
      * intros Htok. apply Hl in Htok as (j & p & Hj & Hid & Htok & Hlast).
        exists j, p. split; [|split; [done|split; [done|]]].
        -- by apply lookup_app_l_Some.
        -- intros j' Hj'. destruct (decide (j' = length l)) as [->|Hne].
           ++ intros Heq. apply Hd. by rewrite Hid, Heq.
           ++ apply Hlast. lia.
    + intros (j & p & Hj & Hid & Htok & Hlast).
      destruct (decide (j = length l)) as [->|Hne].
      * rewrite lookup_app_r, Nat.sub_diag in Hj by done.
        injection Hj as <-. subst id tok. by rewrite decide_True.
      * assert (j < length l)%nat as Hlt.
        { apply lookup_lt_Some in Hj. rewrite length_app in Hj. simpl in Hj. lia. }
        rewrite lookup_app_l in Hj by done.
        rewrite decide_False.
        -- apply Hl. exists j, p. split; [done|]. split; [done|]. split; [done|].
           intros j' Hj'. apply Hlast. lia.
        -- subst id. intros Heq. apply token_id_inj in Heq.
           apply (Hlast (length l)); [lia | done].
Qed.

(** No more entries than indexes, and fewer as soon as two of them drew the
    same identifier. *)
Lemma emit_size (l : list (IndexerNode * IndexUsage)) :
  let st := foldl (emit masterId change uuids) (∅, 0%nat) l in
  (size (fst st) <= length l)%nat /\
  ((exists i j, (i < j < length l)%nat /\ uuids i = uuids j) ->
   (size (fst st) < length l)%nat).
Proof.
  induction l as [|p0 l IH] using rev_ind.
  - cbn zeta. cbn [foldl fst snd length]. rewrite map_size_empty.
    split; [done|]. intros (i & j & Hij & _). lia.
  - destruct IH as (Hle & Hlt). pose proof (emit_last l) as (Hn & Hl).
    cbn zeta in *. rewrite foldl_snoc.
    destruct (foldl (emit masterId change uuids) (∅, 0%nat) l) as [mp n].
    unfold emit. cbn [fst snd] in *. subst n.
    rewrite length_app. cbn [length].
    pose proof (map_size_insert (token_id (uuids (length l)))
                  (token_for masterId change p0) mp) as Hs.
    split.
    + revert Hs. destruct (mp !! token_id (uuids (length l))); unfold id; lia.
    + intros (i & j & Hij & Heq).
      destruct (decide (j = length l)) as [->|Hne].
      * assert (is_Some (mp !! token_id (uuids (length l)))) as [tok0 Htok0].
        { rewrite <- Heq. clear Hs Hlt Heq.
          assert (Hex : forall m, (m <= length l)%nat -> (i < m)%nat ->
                    exists k, (i <= k < m)%nat /\ uuids k = uuids i /\
                              forall k', (k < k' < m)%nat -> uuids k' <> uuids k).
          { induction m as [|m IHm]; intros Hm Him; [lia|].
            destruct (decide (uuids m = uuids i)) as [Em|Em].
            - exists m. split; [lia|]. split; [done|]. intros k' Hk'. lia.
            - destruct (decide (i = m)) as [->|Hne']; [done|].
              destruct IHm as (k & Hk & Ek & Hlast); [lia | lia |].
              exists k. split; [lia|]. split; [done|].
              intros k' Hk'. destruct (decide (k' = m)) as [->|Hkm].
              + by rewrite Ek.
              + apply Hlast. lia. }
          destruct (Hex (length l)) as (k & Hk & Ek & Hlast); [lia | lia |].
          destruct (lookup_lt_is_Some_2 l k) as [p Hp]; [lia|].
          exists (token_for masterId change p). apply Hl.
          exists k, p. split; [done|]. split; [by rewrite Ek|]. split; [done|].
          exact Hlast. }
        rewrite Htok0 in Hs. unfold id in Hs. lia.
      * assert (size mp < length l)%nat by (apply Hlt; exists i, j; split; [lia | done]).
        revert Hs. destruct (mp !! token_id (uuids (length l))); unfold id; lia.
Qed.

End Tokens.

(** With pairwise distinct identifiers the tokens are the ones asked for.
    For every solution in which each index carries its initial node and
    its definition (as a solution read from the cluster does), and with
    pairwise distinct generated identifiers, [genTransferToken] returns a
    map with exactly one token per index whose node changed, and no other
    token: the [j]-th such index has the token filed under the [j]-th
    identifier, with state "TransferTokenCreated", the UUIDs of its initial
    and of its hosting node as source and destination, the given master id,
    the id of the topology change, and the instance id and definition of the
    index. *)
Theorem genTransferToken_one_token_per_moved_index
    (solution : Solution) (masterId : string) (change : TopologyChange)
    (uuids : nat -> string) :
  from_cluster solution ->
  fresh uuids (length (moved solution)) ->
  exists tokens,
    genTransferToken solution masterId change uuids = Done tokens /\
    size tokens = length (moved solution) /\
    (forall j indexer index,
        moved solution !! j = Some (indexer, index) ->
        exists ini defn,
          initialNode index = Some ini /\ Defn index = Some defn /\
          h_NodeId ini <> NodeId indexer /\
          tokens !! token_id (uuids j) =
            Some (mkTransferToken masterId (h_NodeUUID ini) (NodeUUID indexer)
                    (ID change) "TransferTokenCreated" (InstId index) defn)) /\
    (forall id tok,
        tokens !! id = Some tok ->
        exists j p, moved solution !! j = Some p /\ id = token_id (uuids j) /\
                    tok = token_for masterId change p).
Proof.
  intros Hwf Hf. destruct solution as [placement live].
  unfold genTransferToken. simpl.
  rewrite (genTransferToken_nodes_emit _ _ _ live) by done.
  destruct (emit_all masterId change uuids _ Hf) as (_ & Hsz & Hl).
  eexists. split; [reflexivity|]. split; [exact Hsz|]. split.
  - intros j indexer index Hj.
    assert (Hin : (indexer, index) ∈ moved (mkSolution placement live))
      by (eapply list_elem_of_lookup_2; eauto).
    unfold moved in Hin. apply list_elem_of_In, List.filter_In in Hin as [Hin Hch].
    apply list_elem_of_In in Hin. destruct (Hwf _ Hin) as [[ini Hi] [defn Hd]].
    simpl in Hi, Hd. exists ini, defn. repeat split; try done.
    + unfold node_changed in Hch. simpl in Hch. rewrite Hi in Hch.
      intros Heq. rewrite Heq, String.eqb_refl in Hch. done.
    + apply Hl. exists j, (indexer, index). repeat split; [done|].
      unfold token_for. simpl. by rewrite Hi, Hd.
  - intros id tok Htok. by apply Hl.
Qed.

Lemma genTransferToken_one_token_per_moved_index_witness :
  exists tokens,
    genTransferToken sample_solution "master" (mkTopologyChange "rebalance-1")
      (fun j => Strconv.Itoa (Z.of_nat j)) = Done tokens /\
    size tokens = 1%nat.
Proof.
  destruct (genTransferToken_one_token_per_moved_index sample_solution "master"
              (mkTopologyChange "rebalance-1") (fun j => Strconv.Itoa (Z.of_nat j)))
    as (tokens & E & Hsz & _).
  - intros p Hp. apply list_elem_of_In in Hp. simpl in Hp.
    destruct Hp as [<-|[<-|[]]]; split; eexists; reflexivity.
  - intros i j Hi Hj _. simpl in Hi, Hj. lia.
  - exists tokens. split; [exact E | exact Hsz].
Defined.

(** C6.  One token for each index whose node changed is what is asked of
    [genTransferToken].  The tokens are filed in a map under generated
    identifiers, and the error of the generator is dropped
    ([ustr, _ := common.NewUUID()], where [indexUsageFromSpec] checks it):
    as soon as two moved indexes draw the same identifier the later token
    replaces the earlier one, and the map returned holds fewer tokens than
    indexes have moved. *)
Theorem genTransferToken_loses_tokens_on_equal_identifiers
    (solution : Solution) (masterId : string) (change : TopologyChange)
    (uuids : nat -> string) (i j : nat) :
  from_cluster solution ->
  (i < j < length (moved solution))%nat -> uuids i = uuids j ->
  exists tokens,
    genTransferToken solution masterId change uuids = Done tokens /\
    (size tokens < length (moved solution))%nat.
Proof.
  intros Hwf Hij Heq. destruct solution as [placement live].
  unfold genTransferToken. cbn [sol_Placement].
  rewrite (genTransferToken_nodes_emit _ _ _ live) by done.
  destruct (emit_size masterId change uuids (moved (mkSolution placement live)))
    as (_ & Hlt).
  eexists. split; [reflexivity|]. apply Hlt. by exists i, j.
Qed.

Lemma genTransferToken_loses_tokens_on_equal_identifiers_witness :
  length (moved sample_two_moved) = 2%nat /\
  exists tokens,
    genTransferToken sample_two_moved "master" (mkTopologyChange "rebalance-1")
      repeated_identifier = Done tokens /\
    (size tokens < 2)%nat.
Proof.
  split; [reflexivity|].
  destruct (genTransferToken_loses_tokens_on_equal_identifiers sample_two_moved
              "master" (mkTopologyChange "rebalance-1") repeated_identifier 0 1)
    as (tokens & E & Hsz).
  - intros p Hp. apply list_elem_of_In in Hp. simpl in Hp.
    destruct Hp as [<-|[<-|[]]]; split; eexists; reflexivity.
  - simpl. lia.
  - reflexivity.
  - exists tokens. split; [exact E | exact Hsz].
Defined.

(** *** Index usages from index specs *)

Section Sizing.

Context `{SizingMethod} `{Runtime}.

Lemma allocatable_int n : allocatable n -> 0 <= n <= max_int.
Proof. unfold allocatable, PtrSize, max_uintptr, max_int. lia. Qed.

Lemma make_slice_allocatable n :
  allocatable n -> make_slice n = Done (replicate (Z.to_nat n) None).
Proof.
  intros Ha. pose proof (allocatable_int n Ha) as Hi.
  destruct Ha as (Hz & Hu & Hm). unfold make_slice.
  rewrite (proj2 (Z.leb_le _ _) Hz), (proj2 (Z.leb_le _ _) (proj2 Hi)),
    (proj2 (Z.leb_le _ _) Hu), (proj2 (Z.leb_le _ _) Hm).
  done.
Qed.

Lemma make_slice_panics n :
  ~ allocatable n -> make_slice n = Panic "makeslice: len out of range".
Proof.
  intros Hn. unfold make_slice.
  destruct (Z.leb_spec 0 n); [|done].
  destruct (Z.leb_spec n max_int); [|done].
  destruct (Z.leb_spec (PtrSize * n) max_uintptr); [|done].
  destruct (Z.leb_spec (PtrSize * n) maxAlloc); [|done].
  exfalso. apply Hn. by repeat split.
Qed.

Lemma fill_prefix (f : nat -> IndexUsage) (n k : nat) :
  (k <= n)%nat ->
  foldl (fun res i => <[i := Some (f i)]> res) (replicate n None) (seq 0 k) =
  (Some <$> (f <$> seq 0 k)) ++ replicate (n - k) None.
Proof.
  induction k as [|k IH]; intros Hk.
  - simpl. by rewrite Nat.sub_0_r.
  - rewrite seq_S, foldl_snoc, IH by lia. simpl.
    rewrite !fmap_app. simpl.
    rewrite insert_app_r_alt by (rewrite !length_fmap, length_seq; lia).
    rewrite !length_fmap, length_seq, Nat.sub_diag.
    replace (n - k)%nat with (S (n - S k)) by lia. simpl.
    by rewrite <- app_assoc.
Qed.

Lemma fill_replicas_all uuid spec :
  0 <= spec_Replica spec <= max_int ->
  fill_replicas uuid spec (replicate (Z.to_nat (spec_Replica spec)) None) =
  Some <$> ((fun i => new_index uuid spec (Z.of_nat i)) <$>
            seq 0 (Z.to_nat (spec_Replica spec))).
Proof.
  intros Hr. unfold fill_replicas, int_of_uint64.
  rewrite wrap_small by (unfold in_int, min_int, max_int in *; lia).
  rewrite fill_prefix by lia. by rewrite Nat.sub_diag, app_nil_r.
Qed.

Lemma indexUsageFromSpec_allocatable uuid spec :
  allocatable (spec_Replica spec) ->
  indexUsageFromSpec (Some uuid) spec =
  Done (Some <$> ((fun i => new_index uuid spec (Z.of_nat i)) <$>
                  seq 0 (Z.to_nat (spec_Replica spec))), None).
Proof.
  intros Ha. unfold indexUsageFromSpec.
  rewrite make_slice_allocatable by done.
  by rewrite fill_replicas_all by (by apply allocatable_int).
Qed.

(** C7 (as amended).  For every index spec whose [Replica] count [n] the
    runtime allocates the result slice for ([n] pointers within the limit
    of the allocator), and once an identifier has been generated, the
    expansion returns exactly [n] index usages and no error; for every
    other count it panics.  All of the usages returned carry the
    identifier as definition id, replica [i] has instance id [i], replica 0
    bears the name of the spec and replica [i >= 1] that name followed by
    ["_"] and the decimal [i], and the estimates of each are those the
    sizing method computes for it. *)
Theorem indexUsageFromSpec_expands (spec : IndexSpec) (uuid : Z) :
  (~ allocatable (spec_Replica spec) ->
   indexUsageFromSpec (Some uuid) spec = Panic "makeslice: len out of range") /\
  (allocatable (spec_Replica spec) ->
  exists instances,
    indexUsageFromSpec (Some uuid) spec = Done (Some <$> instances, None) /\
    Z.of_nat (length instances) = spec_Replica spec /\
    forall (i : nat) x, instances !! i = Some x ->
      DefnId x = uuid /\
      InstId x = Z.of_nat i /\
      Name x = (if decide (i = 0%nat) then spec_Name spec
                else spec_Name spec ++ "_" ++ Strconv.Itoa (Z.of_nat i))%string /\
      (MemUsage x, MemOverhead x, CpuUsage x) =
        ComputeIndexSize (unsized_index uuid spec (Z.of_nat i)) /\
      x = set_estimates (ComputeIndexSize (unsized_index uuid spec (Z.of_nat i)))
            (unsized_index uuid spec (Z.of_nat i))).
Proof.
  split.
  { intros Hn. unfold indexUsageFromSpec. by rewrite make_slice_panics. }
  intros Hr. eexists. rewrite indexUsageFromSpec_allocatable by done.
  pose proof (allocatable_int _ Hr) as Hi.
  split; [reflexivity|]. split.
  - rewrite length_fmap, length_seq. lia.
  - intros i x Hx. rewrite list_lookup_fmap in Hx.
    destruct (seq 0 (Z.to_nat (spec_Replica spec)) !! i) as [j|] eqn:Hj; [|done].
    apply lookup_seq in Hj as [-> _]. simpl in Hx. injection Hx as <-.
    unfold new_index. simpl.
    destruct (ComputeIndexSize (unsized_index uuid spec (Z.of_nat i)))
      as [[mem ovh] cpu] eqn:E.
    repeat split. unfold replica_name.
    destruct (decide (i = 0%nat)) as [->|Hne]; [done|].
    by destruct (Z.eqb_spec (Z.of_nat i) 0); [lia|].
Qed.

End Sizing.

(** A replica count of [2^63] is a valid [uint64] that no [int] holds, and
    one of [2^61] asks for more bytes than a [uintptr] counts: the
    allocation of the result panics and nothing is returned. *)
Lemma indexUsageFromSpec_panics_on_huge_replica :
  in_uint64 (spec_Replica (sample_spec (2 ^ 63))) /\
  @indexUsageFromSpec sample_sizing sample_runtime (Some 7) (sample_spec (2 ^ 63)) =
  Panic "makeslice: len out of range" /\
  @indexUsageFromSpec sample_sizing sample_runtime (Some 7) (sample_spec (2 ^ 61)) =
  Panic "makeslice: len out of range".
Proof.
  split; [unfold in_uint64, max_uint64; simpl; lia | split; reflexivity].
Qed.

Lemma allocatable_sample n : 0 <= n <= 1000 -> @allocatable sample_runtime n.
Proof. unfold allocatable, PtrSize, max_uintptr. simpl. lia. Qed.

Lemma indexUsageFromSpec_expands_witness :
  exists instances,
    @indexUsageFromSpec sample_sizing sample_runtime (Some 7) (sample_spec 3) =
      Done (Some <$> instances, None) /\
    Z.of_nat (length instances) = 3 /\
    forall x, instances !! 1%nat = Some x -> Name x = "idx_1" /\ InstId x = 1.
Proof.
  destruct (proj2 (@indexUsageFromSpec_expands sample_sizing sample_runtime
                     (sample_spec 3) 7))
    as (instances & E & Hlen & Hall).
  - apply allocatable_sample. simpl. lia.
  - exists instances. split; [exact E|]. split; [exact Hlen|].
    intros x Hx. destruct (Hall 1%nat x Hx) as (_ & Hi & Hn & _).
    split; [exact Hn | exact Hi].
Defined.

End PlannerFacts.

(** ** JSON objects *)

Module JsonFacts.

Import GoInt Json.

Lemma obj_get_members_absent key ms :
  key ∉ ms.*1 -> obj_get key (members ms) = None.
Proof.
  induction ms as [|[k [e v]] rest IH]; [done|].
  rewrite fmap_cons, not_elem_of_cons. simpl. intros [Hk Hrest].
  unfold members. simpl. destruct e; simpl.
  - by apply IH.
  - destruct (String.eqb_spec key k); [done | by apply IH].
Qed.

(** Reading a member back from an encoded struct: the field list decides. *)
Lemma obj_get_members key ms :
  NoDup ms.*1 ->
  obj_get key (members ms) =
  match assoc key ms with
  | Some (e, v) => if e then None else Some v
  | None => None
  end.
Proof.
  induction ms as [|[k [e v]] rest IH]; [done|].
  rewrite fmap_cons, NoDup_cons. simpl. intros [Hk Hnd].
  unfold members. simpl.
  destruct (String.eqb_spec key k) as [->|Hne].
  - destruct e; simpl; [by apply obj_get_members_absent|].
    by rewrite String.eqb_refl.
  - destruct e; simpl; [by apply IH|].
    destruct (String.eqb_spec key k); [done | by apply IH].
Qed.

Section Codec.

Variable ToValidUTF8 : string -> string.

Lemma dec_uint64_plain z :
  0 <= z <= max_uint64 -> dec_uint64 (Some (JNum z)) = Some z.
Proof.
  intros [H0 H1]. simpl.
  by rewrite (proj2 (Z.leb_le _ _) H0), (proj2 (Z.leb_le _ _) H1).
Qed.

Lemma dec_uint64_omit z :
  0 <= z <= max_uint64 ->
  dec_uint64 (if z =? 0 then None else Some (JNum z)) = Some z.
Proof.
  intros Hz. destruct (Z.eqb_spec z 0) as [->|]; [done|].
  by apply dec_uint64_plain.
Qed.

Lemma dec_bool_omit b :
  dec_bool (if negb b then None else Some (JBool b)) = Some b.
Proof. by destruct b. Qed.

Lemma dec_string_plain s :
  ToValidUTF8 s = s -> dec_string (Some (enc_string ToValidUTF8 s)) = Some s.
Proof. intros Hs. simpl. by rewrite Hs. Qed.

Lemma dec_string_omit s :
  ToValidUTF8 s = s ->
  dec_string (if is_empty_string s then None else Some (enc_string ToValidUTF8 s))
  = Some s.
Proof.
  intros Hs. unfold is_empty_string.
  destruct (String.eqb_spec s "") as [->|]; [done|]. by apply dec_string_plain.
Qed.

Lemma dec_list_plain {A B} (enc : A -> json) (dec : json -> option B)
    (f : A -> B) (l : list A) :
  Forall (fun a => dec (enc a) = Some (f a)) l ->
  dec_list dec (Some (JArr (enc <$> l))) = Some (f <$> l).
Proof.
  intros Hl. simpl. apply mapM_Some. 
  induction Hl as [|a l Ha Hl IH]; simpl; by constructor.
Qed.

Lemma dec_list_omit {A B} (enc : A -> json) (dec : json -> option B)
    (f : A -> B) (l : list A) :
  Forall (fun a => dec (enc a) = Some (f a)) l ->
  dec_list dec (if is_empty_list l then None else Some (JArr (enc <$> l)))
  = Some (f <$> l).
Proof.
  intros Hl. destruct l as [|a l]; [done|]. by apply dec_list_plain.
Qed.

Lemma dec_strings_plain l :
  Forall (fun s => ToValidUTF8 s = s) l ->
  dec_strings (Some (enc_strings ToValidUTF8 l)) = Some l.
Proof.
  intros Hl. unfold dec_strings, enc_strings.
  rewrite (dec_list_plain _ _ id).
  - by rewrite list_fmap_id.
  - eapply Forall_impl; [exact Hl|]. intros s Hs. by apply dec_string_plain.
Qed.

Lemma dec_strings_omit l :
  Forall (fun s => ToValidUTF8 s = s) l ->
  dec_strings (if is_empty_list l then None else Some (enc_strings ToValidUTF8 l))
  = Some l.
Proof.
  intros Hl. destruct l as [|a l]; [done|]. by apply dec_strings_plain.
Qed.

End Codec.

End JsonFacts.

(** ** Plans on file *)

Module PlanFileFacts.

Import GoInt Json JsonFacts Planner PlanFile.

Ltac nodup_keys := apply (bool_decide_unpack _); vm_compute; exact I.

Ltac read_members :=
  rewrite !obj_get_members by nodup_keys;
  cbn [assoc omitempty plain_field String.eqb Ascii.eqb Bool.eqb andb].

Section Codec.

Variable ToValidUTF8 : string -> string.

Lemma IndexDefn_roundtrip d :
  ok_IndexDefn ToValidUTF8 d ->
  dec_IndexDefn (enc_IndexDefn ToValidUTF8 d) = Some d.
Proof.
  intros (H1 & H2 & H3 & H4 & H5 & H6 & H7 & H8 & H9 & H10 & H11).
  unfold dec_IndexDefn, enc_IndexDefn, object. read_members.
  rewrite (dec_uint64_omit _ H1), !dec_bool_omit.
  rewrite (dec_string_omit _ _ H2), (dec_string_omit _ _ H3),
    (dec_string_omit _ _ H4), (dec_string_omit _ _ H5),
    (dec_string_omit _ _ H7), (dec_string_omit _ _ H8),
    (dec_string_omit _ _ H9), (dec_string_omit _ _ H10).
  rewrite (dec_strings_omit _ _ H6), (dec_strings_omit _ _ H11).
  by destruct d.
Qed.

Lemma dec_pointer_IndexDefn (o : option Common.IndexDefn) :
  from_option (ok_IndexDefn ToValidUTF8) True o ->
  dec_pointer dec_IndexDefn
    (Some (match o with Some d => enc_IndexDefn ToValidUTF8 d | None => JNull end))
  = Some o.
Proof.
  destruct o as [d|]; [|done]. intros Hd.
  pose proof (IndexDefn_roundtrip d Hd) as R. unfold dec_pointer.
  destruct (enc_IndexDefn ToValidUTF8 d) eqn:E; try discriminate E.
  by rewrite R.
Qed.

Lemma IndexUsage_roundtrip x :
  ok_IndexUsage ToValidUTF8 x ->
  dec_IndexUsage (enc_IndexUsage ToValidUTF8 x) = Some (exported_IndexUsage x).
Proof.
  intros (H1 & H2 & H3 & H4 & H5 & H6 & H7 & H8 & H9 & H10 & H11 & H12 & H13
          & H14 & H15 & H16 & H17 & H18 & H19).
  unfold dec_IndexUsage, enc_IndexUsage, object. read_members.
  rewrite (dec_uint64_plain _ H1), (dec_uint64_plain _ H2),
    (dec_uint64_plain _ H6), (dec_uint64_plain _ H7), (dec_uint64_plain _ H8),
    (dec_uint64_plain _ H9), (dec_uint64_plain _ H10), (dec_uint64_plain _ H11),
    (dec_uint64_plain _ H12), (dec_uint64_plain _ H13), (dec_uint64_plain _ H14),
    (dec_uint64_plain _ H15), (dec_uint64_plain _ H16), (dec_uint64_plain _ H17),
    (dec_uint64_plain _ H18).
  rewrite (dec_string_plain _ _ H3), (dec_string_plain _ _ H4).
  rewrite (dec_strings_plain _ _ H5), (dec_pointer_IndexDefn _ H19).
  done.
Qed.

Lemma IndexerNode_roundtrip n :
  ok_IndexerNode ToValidUTF8 n ->
  dec_IndexerNode (enc_IndexerNode ToValidUTF8 n) = Some (exported_IndexerNode n).
Proof.
  intros (H1 & H2 & H3 & H4 & H5 & H6 & H7 & H8).
  unfold dec_IndexerNode, enc_IndexerNode, object. read_members.
  rewrite (dec_string_plain _ _ H1), (dec_string_plain _ _ H2),
    (dec_string_plain _ _ H3).
  rewrite (dec_uint64_plain _ H4), (dec_uint64_plain _ H5),
    (dec_uint64_plain _ H6), (dec_uint64_plain _ H7).
  rewrite (dec_list_plain _ _ exported_IndexUsage); [done|].
  eapply Forall_impl; [exact H8|]. intros x Hx. by apply IndexUsage_roundtrip.
Qed.

(** Decoding an encoded plan gives the plan back, up to the unexported
    fields. *)
Lemma Unmarshal_Marshal p :
  ok_Plan ToValidUTF8 p -> Unmarshal (Marshal ToValidUTF8 p) = Some (exported p).
Proof.
  intros (H1 & H2 & H3).
  unfold Unmarshal, Marshal, object. read_members.
  rewrite (dec_uint64_omit _ H2), (dec_uint64_omit _ H3), dec_bool_omit.
  rewrite (dec_list_omit _ _ exported_IndexerNode); [done|].
  eapply Forall_impl; [exact H1|]. intros n Hn. by apply IndexerNode_roundtrip.
Qed.

Lemma exported_id p :
  (forall n, n ∈ Placement p ->
     node_delete n = false /\ forall x, x ∈ Indexes n -> initialNode x = None) ->
  exported p = p.
Proof.
  destruct p as [placement mq cq live]. unfold exported. simpl. intros H.
  f_equal. rewrite <- (list_fmap_id placement) at 2.
  apply Forall_fmap_ext_1, Forall_forall. intros n Hn.
  destruct (H n Hn) as [Hd Hx].
  destruct n as [a b c e f g h indexes del]. unfold exported_IndexerNode.
  simpl in *. subst del. f_equal.
  rewrite <- (list_fmap_id indexes) at 2.
  apply Forall_fmap_ext_1, Forall_forall. intros x Hin. specialize (Hx x Hin).
  destruct x. simpl in *. by subst.
Qed.

Lemma ReadPlan_after_savePlan output p fs :
  output <> "" -> ok_Plan ToValidUTF8 p ->
  exists fs',
    savePlan ToValidUTF8 output (mkSolution (Placement p) (IsLive p))
             (mkConstraint (MemQuota p) (CpuQuota p)) fs = (None, fs') /\
    ReadPlan output fs' = (Some (exported p), None).
Proof.
  intros Hout Hok. destruct p as [pl mq cq live].
  unfold savePlan, WriteFile.
  cbn [Placement MemQuota CpuQuota IsLive sol_Placement isLiveData
       GetMemQuota GetCpuQuota].
  destruct (String.eqb_spec output "") as [|_]; [done|].
  eexists. split; [reflexivity|].
  unfold ReadPlan, ReadFile.
  destruct (String.eqb_spec output "") as [|_]; [done|].
  cbn [negb]. rewrite lookup_insert_eq. by rewrite Unmarshal_Marshal.
Qed.

(** C8 (as amended).  Saving a plan with [savePlan] under a non-empty path
    and reading that file with [ReadPlan] succeeds and yields a plan with
    the same [MemQuota], [CpuQuota] and [IsLive] and the same nodes and
    indexes as far as their exported fields go; the unexported fields (the
    [delete] flag of a node, the [initialNode] of an index) are not written
    and come back as zero values.  A plan whose nodes and indexes hold no
    such state is read back unchanged.  (Values are those the types admit:
    [uint64] fields in range, strings valid UTF-8.) *)
Theorem savePlan_ReadPlan_exported_fields (output : string) (p : Plan)
    (fs : gmap string json) :
  output <> "" -> ok_Plan ToValidUTF8 p ->
  exists fs' p',
    savePlan ToValidUTF8 output (mkSolution (Placement p) (IsLive p))
             (mkConstraint (MemQuota p) (CpuQuota p)) fs = (None, fs') /\
    ReadPlan output fs' = (Some p', None) /\
    MemQuota p' = MemQuota p /\ CpuQuota p' = CpuQuota p /\ IsLive p' = IsLive p /\
    Placement p' = exported_IndexerNode <$> Placement p /\
    ((forall n, n ∈ Placement p ->
        node_delete n = false /\ forall x, x ∈ Indexes n -> initialNode x = None) ->
     p' = p).
Proof.
  intros Hout Hok.
  destruct (ReadPlan_after_savePlan output p fs Hout Hok) as (fs' & Hs & Hr).
  exists fs', (exported p). repeat split; try done.
  apply exported_id.
Qed.

End Codec.

Lemma ok_sample_plan : ok_Plan id sample_plan.
Proof.
  unfold ok_Plan, sample_plan, ok_u64, max_uint64. simpl.
  repeat split; try lia.
  repeat constructor; unfold ok_u64, max_uint64; simpl; try lia;
    repeat constructor.
Qed.

(** The plan of a rebalance, in which an index remembers the node it started
    on, does not come back equal: [initialNode] is nil in the plan read. *)
Lemma ReadPlan_loses_initialNode :
  let saved := savePlan id "plan.json"
                 (mkSolution (Placement sample_plan) (IsLive sample_plan))
                 (mkConstraint (MemQuota sample_plan) (CpuQuota sample_plan)) ∅ in
  fst saved = None /\
  ReadPlan "plan.json" (snd saved) = (Some (exported sample_plan), None) /\
  exported sample_plan <> sample_plan.
Proof.
  destruct (ReadPlan_after_savePlan id "plan.json" sample_plan ∅)
    as (fs' & Hs & Hr); [done | apply ok_sample_plan |].
  cbn zeta. rewrite Hs. simpl. repeat split; [exact Hr|].
  discriminate.
Qed.

Lemma savePlan_ReadPlan_exported_fields_witness :
  exists fs' p',
    savePlan id "plan.json"
      (mkSolution (Placement sample_plan) (IsLive sample_plan))
      (mkConstraint (MemQuota sample_plan) (CpuQuota sample_plan)) ∅ = (None, fs') /\
    ReadPlan "plan.json" fs' = (Some p', None) /\
    MemQuota p' = 1000000 /\ CpuQuota p' = 4 /\ IsLive p' = true.
Proof.
  destruct (savePlan_ReadPlan_exported_fields id "plan.json" sample_plan ∅)
    as (fs' & p' & Hs & Hr & Hm & Hc & Hl & _); [done | apply ok_sample_plan |].
  exists fs', p'. repeat split; assumption.
Defined.

End PlanFileFacts.

(** * Further properties of the code *)

(** ** Index equivalence *)

Module IndexDefnProps.

Import Common CommonFacts.

Lemma str_ne_sym a b : str_ne a b = str_ne b a.
Proof. unfold str_ne. by rewrite String.eqb_sym. Qed.

Lemma bool_ne_sym a b : bool_ne a b = bool_ne b a.
Proof. by destruct a, b. Qed.

Lemma str_ne_false a b : str_ne a b = false -> a = b.
Proof. unfold str_ne. by destruct (String.eqb_spec a b). Qed.

Lemma bool_ne_false a b : bool_ne a b = false -> a = b.
Proof. by destruct a, b. Qed.

Lemma secExprs_outer_true l1 l2 :
  secExprs_outer l1 l2 = true <->
  forall s1 s2, s1 ∈ l1 -> s2 ∈ l2 -> s1 = s2.
Proof.
  induction l1 as [|s l1 IH]; simpl.
  - split; [|done]. intros _ s1 s2 H1. by apply elem_of_nil in H1.
  - destruct (secExprs_inner s l2) eqn:E.
    + apply secExprs_inner_all in E. rewrite Forall_forall in E. rewrite IH.
      split.
      * intros H s1 s2 [->|H1]%elem_of_cons H2; [symmetry; by apply E | by apply H].
      * intros H s1 s2 H1 H2. apply H; [by right | done].
    + split; [done|]. intros H.
      assert (secExprs_inner s l2 = true) as E'; [|congruence].
      apply secExprs_inner_all, Forall_forall. intros x Hx. symmetry.
      apply H; [by left | done].
Qed.

Lemma equivalent_iff (d1 d2 : IndexDefn) :
  IsEquivalentIndex d1 d2 = true <->
  Bucket d1 = Bucket d2 /\ IsPrimary d1 = IsPrimary d2 /\
  ExprType d1 = ExprType d2 /\ PartitionScheme d1 = PartitionScheme d2 /\
  PartitionKey d1 = PartitionKey d2 /\ WhereExpr d1 = WhereExpr d2 /\
  forall s1 s2, s1 ∈ SecExprs d1 -> s2 ∈ SecExprs d2 -> s1 = s2.
Proof.
  split.
  - unfold IsEquivalentIndex. rewrite str_ne_refl. simpl.
    destruct (str_ne (Bucket d1) (Bucket d2)) eqn:E1; [done|].
    destruct (bool_ne (IsPrimary d1) (IsPrimary d2)) eqn:E2; [done|].
    destruct (str_ne (ExprType d1) (ExprType d2)) eqn:E3; [done|].
    destruct (str_ne (PartitionScheme d1) (PartitionScheme d2)) eqn:E4; [done|].
    destruct (str_ne (PartitionKey d1) (PartitionKey d2)) eqn:E5; [done|].
    destruct (str_ne (WhereExpr d1) (WhereExpr d2)) eqn:E6; [done|].
    simpl. intros Hs. pose proof (proj1 (secExprs_outer_true _ _) Hs) as Hs'.
    apply str_ne_false in E1, E3, E4, E5, E6. apply bool_ne_false in E2.
    done.
  - intros (E1 & E2 & E3 & E4 & E5 & E6 & Hs).
    unfold IsEquivalentIndex. rewrite E1, E2, E3, E4, E5, E6.
    rewrite !str_ne_refl, bool_ne_refl. simpl. by apply secExprs_outer_true.
Qed.

Lemma equivalent_sym (d1 d2 : IndexDefn) :
  IsEquivalentIndex d1 d2 = IsEquivalentIndex d2 d1.
Proof.
  apply eq_true_iff_eq. rewrite !equivalent_iff.
  split; intros (-> & -> & -> & -> & -> & -> & H); repeat split; try done;
    intros s1 s2 H1 H2; symmetry; by apply H.
Qed.

(** [IsEquivalentIndex] answers [true] exactly when the two definitions
    agree on bucket, primary flag, expression type, partition scheme,
    partition key and where-clause, and every secondary expression of the
    first equals every secondary expression of the second.  [Using] and all
    other fields are not looked at, and an empty expression list on either
    side makes the expression test pass. *)
Theorem IsEquivalentIndex_true_iff (d1 d2 : IndexDefn) :
  IsEquivalentIndex d1 d2 = true <->
  Bucket d1 = Bucket d2 /\ IsPrimary d1 = IsPrimary d2 /\
  ExprType d1 = ExprType d2 /\ PartitionScheme d1 = PartitionScheme d2 /\
  PartitionKey d1 = PartitionKey d2 /\ WhereExpr d1 = WhereExpr d2 /\
  forall s1 s2, s1 ∈ SecExprs d1 -> s2 ∈ SecExprs d2 -> s1 = s2.
Proof. exact (equivalent_iff d1 d2). Qed.

(** [IsEquivalentIndex] is symmetric. *)
Theorem IsEquivalentIndex_sym (d1 d2 : IndexDefn) :
  IsEquivalentIndex d1 d2 = IsEquivalentIndex d2 d1.
Proof. exact (equivalent_sym d1 d2). Qed.

(** It is not transitive: a definition without secondary expressions is
    equivalent to any definition that agrees with it on the six compared
    fields, whatever the expressions of that one are. *)
Theorem IsEquivalentIndex_empty_SecExprs (d1 d2 : IndexDefn) :
  SecExprs d2 = [] ->
  Bucket d1 = Bucket d2 -> IsPrimary d1 = IsPrimary d2 ->
  ExprType d1 = ExprType d2 -> PartitionScheme d1 = PartitionScheme d2 ->
  PartitionKey d1 = PartitionKey d2 -> WhereExpr d1 = WhereExpr d2 ->
  IsEquivalentIndex d1 d2 = true /\ IsEquivalentIndex d2 d1 = true.
Proof.
  intros He H1 H2 H3 H4 H5 H6. rewrite (equivalent_sym d2 d1).
  assert (IsEquivalentIndex d1 d2 = true); [|by split].
  apply equivalent_iff. repeat split; try done.
  intros s1 s2 _ Hs2. rewrite He in Hs2. by apply elem_of_nil in Hs2.
Qed.

Lemma IsEquivalentIndex_empty_SecExprs_witness :
  IsEquivalentIndex defn_two_keys
    (mkIndexDefn 2 "other" "forestdb" "default" "" false [] "N1QL" "SINGLE" ""
       "" true false [] false) = true.
Proof.
  apply (IsEquivalentIndex_empty_SecExprs defn_two_keys
           (mkIndexDefn 2 "other" "forestdb" "default" "" false [] "N1QL" "SINGLE"
              "" "" true false [] false)); reflexivity.
Defined.

End IndexDefnProps.

(** ** The retry wrapper, over whole runs *)

Module RetryProps.

Import GoInt Client ClientFacts RetryRuns.

Lemma reached_init c fn : reached c fn (init c).
Proof. split; [done|]. split; [done|]. intros j Hj. simpl in Hj. lia. Qed.

Lemma loop_returned c fn fuel : forall st err n slept,
  reached c fn st ->
  withRetry_loop c fn fuel st = Returned err n slept ->
  n = S (calls st + (n - S (calls st))) /\
  err = fn (n - 1)%nat /\ slept = sleeps_before c (n - 1) /\
  forall j, (j < n - 1)%nat -> refused (fn j) /\ 0 < interval_at c j.
Proof.
  induction fuel as [|fuel IH]; intros st err n slept (Hi & Hs & Hp) E; [done|].
  simpl in E.
  assert (Hhere : forall e, Returned e (S (calls st)) (sleeps st) = Returned err n slept ->
            e = fn (calls st) ->
            n = S (calls st + (n - S (calls st))) /\
            err = fn (n - 1)%nat /\ slept = sleeps_before c (n - 1) /\
            forall j, (j < n - 1)%nat -> refused (fn j) /\ 0 < interval_at c j).
  { intros e [= <- <- <-] ->. simpl. rewrite Nat.sub_0_r.
    repeat split; try done; try lia; by apply Hp. }
  destruct (fn (calls st)) as [msg|] eqn:Hfn; [|by apply (Hhere None)].
  destruct (connection_refused msg) eqn:Hmsg; simpl in E;
    [|by apply (Hhere (Some msg))].
  destruct (Z.leb_spec (interval st) 0) as [|Hpos]; [by apply (Hhere (Some msg))|].
  destruct (count_down (retries st)) as [m expired].
  destruct expired; [by apply (Hhere (Some msg))|].
  apply IH in E.
  - simpl in E. destruct E as (Hn & E). split; [lia | exact E].
  - split; [|split]; simpl.
    + by rewrite Hi.
    + by rewrite Hs, Hi.
    + intros j Hj. destruct (decide (j = calls st)) as [->|Hne].
      * split; [by exists msg | by rewrite <- Hi].
      * apply Hp. lia.
Qed.

(** When [withRetry] returns after [n] calls, the error it returns is the
    one of the last call, every earlier call was refused and met a positive
    interval, and exactly one sleep was taken between consecutive calls,
    each of the interval then in force. *)
Theorem withRetry_returns_last_error (c : Client) (fn : nat -> error)
    (fuel : nat) (err : error) (n : nat) (slept : list Z) :
  withRetry c fn fuel = Returned err n slept ->
  (1 <= n)%nat /\ err = fn (n - 1)%nat /\
  slept = sleeps_before c (n - 1) /\ length slept = (n - 1)%nat /\
  forall j, (j < n - 1)%nat -> refused (fn j) /\ 0 < interval_at c j.
Proof.
  intros E. apply loop_returned in E; [|apply reached_init].
  destruct E as (Hn & He & Hs & Hp). repeat split; try done; try lia.
  - rewrite Hs. clear. induction (n - 1)%nat as [|k IH]; [done|].
    simpl. rewrite length_app, IH. simpl. lia.
  - by apply Hp.
  - by apply Hp.
Qed.

Lemma withRetry_returns_last_error_witness :
  None = fails_twice 2 /\
  [100000000; 200000000] = sleeps_before client_S2 2 /\
  refused (fails_twice 1).
Proof.
  destruct (withRetry_returns_last_error client_S2 fails_twice 10 None 3
              [100000000; 200000000] eq_refl) as (_ & He & Hs & _ & Hp).
  split; [exact He|]. split; [exact Hs|]. apply (Hp 1%nat). simpl. lia.
Defined.

Lemma loop_stops fn c fuel : forall st k,
  (calls st <= k < calls st + fuel)%nat -> ~ refused (fn k) ->
  has_returned (withRetry_loop c fn fuel st) /\
  (attempts (withRetry_loop c fn fuel st) <= S k)%nat.
Proof.
  induction fuel as [|fuel IH]; intros st k Hk Hnr; [lia|]. simpl.
  destruct (fn (calls st)) as [msg|] eqn:Hfn; [|simpl; split; [done|lia]].
  destruct (connection_refused msg) eqn:Hmsg; simpl; [|split; [done|lia]].
  destruct (interval st <=? 0); [simpl; split; [done|lia]|].
  destruct (count_down (retries st)) as [m expired].
  destruct expired; [simpl; split; [done|lia]|].
  destruct (decide (k = calls st)) as [->|Hne].
  - exfalso. apply Hnr. by exists msg.
  - apply IH; [simpl; lia | done].
Qed.

(** [withRetry] never calls again after a call that succeeded or failed
    with anything but connection-refused: if the [k]-th call is such, the
    wrapper has returned within [k + 1] iterations and has made at most
    [k + 1] calls. *)
Theorem withRetry_stops_at_first_unrefused (c : Client) (fn : nat -> error)
    (k fuel : nat) :
  ~ refused (fn k) -> (k < fuel)%nat ->
  has_returned (withRetry c fn fuel) /\
  (attempts (withRetry c fn fuel) <= S k)%nat.
Proof. intros Hnr Hk. apply loop_stops; [simpl; lia | done]. Qed.

Lemma withRetry_stops_at_first_unrefused_witness :
  has_returned (withRetry client_forever fails_twice 5) /\
  (attempts (withRetry client_forever fails_twice 5) <= 3)%nat.
Proof.
  apply (withRetry_stops_at_first_unrefused client_forever fails_twice 2 5).
  - intros (msg & Hm & _). discriminate Hm.
  - lia.
Defined.

End RetryProps.

(** ** The data path: commands, events, shutdown *)

Module DataPathProps.

Import Projector ProjectorFacts DataPathRuns.

Lemma int_of_string_of_int d :
  exists d', DecimalString.NilZero.int_of_string
               (DecimalString.NilZero.string_of_int d) = Some d' /\
             Z.of_int d' = Z.of_int d.
Proof.
  destruct d as [u|u]; destruct u;
    try (eexists; split; [apply DecimalString.NilZero.isi; discriminate | done]).
  - eexists. split; [apply DecimalString.NilZero.isi_posnil | done].
  - eexists. split; [apply DecimalString.NilZero.isi_negnil | done].
Qed.

(** [strconv.Itoa] maps distinct integers to distinct strings. *)
Lemma Itoa_inj : Inj (=) (=) Strconv.Itoa.
Proof.
  intros a b E. unfold Strconv.Itoa in E.
  destruct (int_of_string_of_int (Z.to_int a)) as (da & Ha & Hza).
  destruct (int_of_string_of_int (Z.to_int b)) as (db & Hb & Hzb).
  rewrite E, Hb in Ha. injection Ha as <-.
  rewrite DecimalZ.of_to in Hza, Hzb. congruence.
Qed.

#[local] Existing Instance Itoa_inj.

Section DataPath.

Context `{Externals}.

Implicit Types (k : KVData) (s : Scatter) (m : UprEvent) (msg : list iface).

(** *** Engines and endpoints *)

Lemma lookup_delete_engines (keys : list Z) : forall (e : gmap Z Engine) u,
  delete_engines keys e !! u = if decide (u ∈ keys) then None else e !! u.
Proof.
  unfold delete_engines.
  induction keys as [|key keys IH]; intros e u; cbn [foldl].
  - destruct (decide (u ∈ [])) as [Hd|Hd]; [by apply elem_of_nil in Hd | done].
  - rewrite IH, lookup_delete.
    destruct (decide (u ∈ key :: keys)) as [Hc|Hc].
    + apply elem_of_cons in Hc.
      destruct (decide (u ∈ keys)) as [|Hnin]; [done|].
      destruct (decide (key = u)) as [|Hne]; [done|].
      destruct Hc as [Hu|Hu]; [by subst | done].
    + rewrite not_elem_of_cons in Hc. destruct Hc as [Hne Hnin].
      rewrite decide_False by done. by rewrite decide_False.
Qed.

(** The [AddEngines] command merges the given engines and endpoints into
    those of the data path, a given entry replacing one with the same key
    and all other entries staying; every routine of the map is then handed
    the merged maps, and the caller gets one [nil] reply. *)
Theorem AddEngines_merges (es : gmap Z Engine) (ps : gmap string RouterEndpoint)
    (respch : nat) (s : Scatter) :
  exists s',
    handle_command (AddEngines_cmd es ps respch) s = Continue s' /\
    (forall u, engines (kvdata s') !! u =
               match es !! u with Some e => Some e | None => engines (kvdata s) !! u end) /\
    (forall a, endpoints (kvdata s') !! a =
               match ps !! a with Some p => Some p | None => endpoints (kvdata s) !! a end) /\
    (forall v, vrs (kvdata s') !! v =
               vr_call (VrAddEngines (engines (kvdata s')) (endpoints (kvdata s')))
                 <$> vrs (kvdata s) !! v) /\
    replies s' = replies s ++ [(respch, ReplyNil)] /\ ts s' = ts s.
Proof.
  eexists. split; [reflexivity|]. simpl. repeat split.
  - intros u. rewrite lookup_union. by destruct (es !! u), (engines (kvdata s) !! u).
  - intros a. rewrite lookup_union. by destruct (ps !! a), (endpoints (kvdata s) !! a).
  - intros v. apply lookup_fmap.
Qed.

(** The [DeleteEngines] command removes exactly the given keys from the
    engines of the data path; endpoints stay, every routine of the map is
    told the keys, and the caller gets one [nil] reply. *)
Theorem DeleteEngines_removes (keys : list Z) (respch : nat) (s : Scatter) :
  exists s',
    handle_command (DeleteEngines_cmd keys respch) s = Continue s' /\
    (forall u, engines (kvdata s') !! u =
               if decide (u ∈ keys) then None else engines (kvdata s) !! u) /\
    endpoints (kvdata s') = endpoints (kvdata s) /\
    (forall v, vrs (kvdata s') !! v =
               vr_call (VrDeleteEngines keys) <$> vrs (kvdata s) !! v) /\
    replies s' = replies s ++ [(respch, ReplyNil)].
Proof.
  eexists. split; [reflexivity|]. simpl. repeat split.
  - intros u. apply lookup_delete_engines.
  - intros v. apply lookup_fmap.
Qed.

(** An engine added and then deleted is gone, whatever else was added with
    it. *)
Theorem AddEngines_then_DeleteEngines (es : gmap Z Engine)
    (ps : gmap string RouterEndpoint) (keys : list Z) (r1 r2 : nat) (s : Scatter) :
  exists s1 s2,
    handle_command (AddEngines_cmd es ps r1) s = Continue s1 /\
    handle_command (DeleteEngines_cmd keys r2) s1 = Continue s2 /\
    (forall u, u ∈ keys -> engines (kvdata s2) !! u = None) /\
    (forall u e, u ∉ keys -> es !! u = Some e -> engines (kvdata s2) !! u = Some e) /\
    replies s2 = replies s ++ [(r1, ReplyNil); (r2, ReplyNil)].
Proof.
  do 2 eexists. split; [reflexivity|]. split; [reflexivity|].
  cbn [kvdata with_kvdata engines set_engines set_endpoints set_vrs replies
       send_reply broadcast].
  split; [|split].
  - intros u Hu. rewrite lookup_delete_engines. by rewrite decide_True.
  - intros u e Hu Hes. rewrite lookup_delete_engines, decide_False by done.
    rewrite lookup_union, Hes. by destruct (engines (kvdata s) !! u).
  - by rewrite <- app_assoc.
Qed.

(** The reply to [GetStatistics] lists the routines of the map under the
    decimal numeral of their vbucket: one entry per routine, none else. *)
Theorem GetStatistics_reports_every_routine (respch : nat) (s : Scatter) :
  exists s' stats,
    handle_command (GetStatistics_cmd respch) s = Continue s' /\
    replies s' = replies s ++ [(respch, ReplyStats 0 stats)] /\
    (forall v, stats !! Strconv.Itoa v = vrs (kvdata s) !! v) /\
    (forall key vr, stats !! key = Some vr ->
       exists v, key = Strconv.Itoa v /\ vrs (kvdata s) !! v = Some vr).
Proof.
  do 2 eexists. split; [reflexivity|]. split; [reflexivity|]. split.
  - intros v. apply (lookup_kmap Strconv.Itoa).
  - intros key vr Hk. by apply (lookup_kmap_Some Strconv.Itoa) in Hk.
Qed.

(** *** Events *)

(** A mutation, deletion, snapshot marker or expiration is handed to the
    routine of its vbucket and to no other; without such a routine it is
    dropped and the data path stays as it is.  In both cases nothing is
    posted to the feed. *)
Theorem data_event_goes_to_its_routine (m : UprEvent) (t : TsVbuuid) (k : KVData) :
  is_data_event m ->
  exists k',
    scatterMutation m t k = Done k' /\
    feed_posts k' = feed_posts k /\ engines k' = engines k /\
    endpoints k' = endpoints k /\ ended k' = ended k /\
    (vrs k !! ev_VBucket m = None -> k' = k) /\
    (forall vr, vrs k !! ev_VBucket m = Some vr ->
       vrs k' !! ev_VBucket m = Some (vr_call (VrEvent m) vr)) /\
    (forall v, v <> ev_VBucket m -> vrs k' !! v = vrs k !! v).
Proof.
  intros Hd. unfold scatterMutation.
  assert (Hcase : exists k',
    match vrs k !! ev_VBucket m with
    | Some vr => Done (set_vrs (<[ev_VBucket m := vr_call (VrEvent m) vr]> (vrs k)) k)
    | None => Done k
    end = Done k' /\
    feed_posts k' = feed_posts k /\ engines k' = engines k /\
    endpoints k' = endpoints k /\ ended k' = ended k /\
    (vrs k !! ev_VBucket m = None -> k' = k) /\
    (forall vr, vrs k !! ev_VBucket m = Some vr ->
       vrs k' !! ev_VBucket m = Some (vr_call (VrEvent m) vr)) /\
    (forall v, v <> ev_VBucket m -> vrs k' !! v = vrs k !! v)).
  { destruct (vrs k !! ev_VBucket m) as [vr|] eqn:E.
    - eexists. split; [reflexivity|]. simpl. repeat split; try done.
      + intros vr' [= <-]. apply lookup_insert_eq.
      + intros v Hv. by rewrite lookup_insert_ne.
    - exists k. repeat split; done. }
  destruct Hd as [-> | [-> | [-> | ->]]]; exact Hcase.
Qed.

(** A stream request that was answered with a rollback or with any other
    failure creates no routine: the data path is left as it is, and the
    event is reported to the feed unchanged. *)
Theorem failed_StreamRequest_creates_nothing (m : UprEvent) (t : TsVbuuid)
    (k : KVData) :
  ev_Opcode m = UPR_STREAMREQ -> ev_Status m <> SUCCESS ->
  scatterMutation m t k = Done (post (PostStreamRequest (bucket k) (kvaddr k) m) k) /\
  vrs (post (PostStreamRequest (bucket k) (kvaddr k) m) k) = vrs k.
Proof.
  intros Ho Hs. unfold scatterMutation. rewrite Ho.
  destruct (ev_Status m); [done | done | done].
Qed.

(** *** Replies *)

Lemma handle_command_replies msg s :
  exists new, replies (step_state (handle_command msg s)) = replies s ++ new /\
              (length new <= 1)%nat.
Proof.
  unfold handle_command.
  assert (Hnone : exists new, replies s = replies s ++ new /\ (length new <= 1)%nat).
  { exists []. rewrite app_nil_r. simpl. split; [done | lia]. }
  assert (Hone : forall ch r (s0 : Scatter), replies s0 = replies s ->
            exists new, replies (send_reply ch r s0) = replies s ++ new /\
                        (length new <= 1)%nat).
  { intros ch r s0 E. exists [(ch, r)]. simpl. by rewrite E. }
  destruct (msg_byte msg 0) as [cmd|]; [|done].
  destruct (cmd =? kvCmdAddEngines).
  { destruct (msg_chan msg 3); [|done]. destruct (msg_engines msg 1); [|done].
    destruct (msg_endpoints msg 2); simpl; [|done]. by apply Hone. }
  destruct (cmd =? kvCmdDelEngines).
  { destruct (msg_keys msg 1); [|done].
    destruct (msg_chan msg 2); simpl; [|done]. by apply Hone. }
  destruct (cmd =? kvCmdTs).
  { destruct (msg_ts msg 1); [|done].
    destruct (msg_chan msg 2); simpl; [|done]. by apply Hone. }
  destruct (cmd =? kvCmdGetStats).
  { destruct (msg_chan msg 1); simpl; [|done]. by apply Hone. }
  destruct (cmd =? kvCmdClose); [|done].
  destruct (msg_chan msg 1); simpl; [|done]. by apply Hone.
Qed.

Lemma scatter_step_replies c s :
  exists new, replies (step_state (scatter_step c s)) = replies s ++ new /\
              (length new <= if is_command c then 1 else 0)%nat.
Proof.
  destruct c as [m| |msg]; simpl.
  - exists []. rewrite app_nil_r. split; [|done].
    destruct (scatterMutation m (ts s) (kvdata s)); [|done]. by case_decide.
  - exists []. by rewrite app_nil_r.
  - apply handle_command_replies.
Qed.

(** Over any schedule the loop only ever adds replies, at most one per
    command it receives; upstream events are never answered. *)
Theorem at_most_one_reply_per_command (inputs : list select_case) (s : Scatter) :
  exists new,
    replies (state_of (scatter_loop inputs s)) = replies s ++ new /\
    (length new <= length (List.filter is_command inputs))%nat.
Proof.
  revert s. induction inputs as [|c rest IH]; intros s.
  - exists []. by rewrite app_nil_r.
  - destruct (scatter_step_replies c s) as (new1 & E1 & L1).
    assert (Hlen : (length (List.filter is_command rest) +
                    (if is_command c then 1 else 0) =
                    length (List.filter is_command (c :: rest)))%nat).
    { simpl. destruct (is_command c); simpl; lia. }
    rewrite <- Hlen. clear Hlen.
    set (n1 := if is_command c then 1%nat else 0%nat) in *.
    rewrite scatter_loop_cons.
    destruct (scatter_step c s) as [s1|s1|s1 r]; simpl in E1.
    + destruct (IH s1) as (new2 & E2 & L2).
      exists (new1 ++ new2). rewrite E2, E1, <- app_assoc. split; [done|].
      rewrite length_app. lia.
    + exists new1. split; [done | lia].
    + exists new1. split; [done | lia].
Qed.

(** *** Shutdown *)

Lemma same_identity_refl k : same_identity k k.
Proof. by repeat split. Qed.

Lemma same_identity_trans k1 k2 k3 :
  same_identity k1 k2 -> same_identity k2 k3 -> same_identity k1 k3.
Proof.
  intros (?&?&?&?&?) (?&?&?&?&?). repeat split; congruence.
Qed.

Lemma scatterMutation_identity m t k k' :
  scatterMutation m t k = Done k' -> same_identity k k'.
Proof.
  unfold scatterMutation. intros E.
  destruct (ev_Opcode m).
  - destruct (is_ROLLBACK (ev_Status m)); [by injection E as <-|].
    destruct (is_SUCCESS (ev_Status m)); simpl in E; [|by injection E as <-].
    destruct (vrs k !! ev_VBucket m); [by injection E as <-|].
    destruct (Latest (ev_FailoverLog m)) as [[vbuuid sq] [err|]]; [done|].
    by injection E as <-.
  - destruct (vrs k !! ev_VBucket m); [|by injection E as <-].
    destruct (is_SUCCESS (ev_Status m)); simpl in E; by injection E as <-.
  - destruct (vrs k !! ev_VBucket m); by injection E as <-.
  - destruct (vrs k !! ev_VBucket m); by injection E as <-.
  - destruct (vrs k !! ev_VBucket m); by injection E as <-.
  - destruct (vrs k !! ev_VBucket m); by injection E as <-.
  - by injection E as <-.
Qed.

Lemma handle_command_identity msg s :
  same_identity (kvdata s) (kvdata (step_state (handle_command msg s))).
Proof.
  unfold handle_command.
  destruct (msg_byte msg 0) as [cmd|]; [|apply same_identity_refl].
  destruct (cmd =? kvCmdAddEngines).
  { destruct (msg_chan msg 3); [|apply same_identity_refl].
    destruct (msg_engines msg 1); [|apply same_identity_refl].
    by destruct (msg_endpoints msg 2). }
  destruct (cmd =? kvCmdDelEngines).
  { destruct (msg_keys msg 1); [|apply same_identity_refl].
    by destruct (msg_chan msg 2). }
  destruct (cmd =? kvCmdTs).
  { destruct (msg_ts msg 1); [|apply same_identity_refl].
    by destruct (msg_chan msg 2). }
  destruct (cmd =? kvCmdGetStats).
  { by destruct (msg_chan msg 1). }
  destruct (cmd =? kvCmdClose); [|apply same_identity_refl].
  by destruct (msg_chan msg 1).
Qed.

Lemma scatter_step_identity c s :
  same_identity (kvdata s) (kvdata (step_state (scatter_step c s))).
Proof.
  destruct c as [m| |msg]; simpl;
    [|apply same_identity_refl | apply handle_command_identity].
  destruct (scatterMutation m (ts s) (kvdata s)) as [k'|] eqn:E;
    [|apply same_identity_refl].
  case_decide; simpl; by eapply scatterMutation_identity.
Qed.

Lemma scatter_loop_identity inputs : forall s,
  same_identity (kvdata s) (kvdata (state_of (scatter_loop inputs s))).
Proof.
  induction inputs as [|c rest IH]; intros s; [apply same_identity_refl|].
  rewrite scatter_loop_cons. pose proof (scatter_step_identity c s) as Hs.
  destruct (scatter_step c s) as [s1|s1|s1 r]; simpl in *; [|done|done].
  eapply same_identity_trans; [exact Hs | apply IH].
Qed.

Lemma deferred_shutdown k :
  finch_closed (deferred k) = true /\
  last (feed_posts (deferred k)) = Some (PostFinKVdata (bucket k) (kvaddr k)) /\
  (forall v, vrs (deferred k) !! v =
             vr_call (VrEvent synthetic_StreamEnd) <$> vrs k !! v) /\
  bucket (deferred k) = bucket k /\ kvaddr (deferred k) = kvaddr k.
Proof.
  unfold deferred. simpl. repeat split.
  - apply last_snoc.
  - intros v. apply lookup_fmap.
Qed.

(** However [runScatter] leaves its loop (upstream closed, map empty,
    [Close], or a panic), it closes [finch], posts its end to the feed as
    the last thing it posts, and every routine still in the map has been
    sent a synthetic stream end last of all.  While the loop is running,
    [finch] stays open. *)
Theorem runScatter_shutdown (t : TsVbuuid) (inputs : list select_case) (k : KVData) :
  finch_closed k = false ->
  let r := runScatter t inputs k in
  finch_closed (kvdata (state_of r)) = has_exited r /\
  (has_exited r = true ->
     last (feed_posts (kvdata (state_of r))) =
       Some (PostFinKVdata (bucket k) (kvaddr k)) /\
     forall v vr, vrs (kvdata (state_of r)) !! v = Some vr ->
       last (vr_calls vr) = Some (VrEvent synthetic_StreamEnd)).
Proof.
  intros Hopen. unfold runScatter. cbn zeta.
  pose proof (scatter_loop_identity inputs (mkScatter k t 0 [])) as (_ & Hb & Hk & _ & Hf).
  simpl in Hb, Hk, Hf.
  assert (Hvr : forall k0 v vr, vrs (deferred k0) !! v = Some vr ->
                  last (vr_calls vr) = Some (VrEvent synthetic_StreamEnd)).
  { intros k0 v vr. destruct (deferred_shutdown k0) as (_ & _ & Hl & _).
    rewrite Hl. destruct (vrs k0 !! v) as [vr0|]; simpl; [|done].
    intros [= <-]. simpl. apply last_snoc. }
  destruct (scatter_loop inputs (mkScatter k t 0 [])) as [s rest|s r rest|s];
    cbn [state_of has_exited kvdata with_kvdata] in *.
  - destruct (deferred_shutdown (kvdata s)) as (Hc & Hp & _).
    split; [done|]. intros _. rewrite Hp, Hb, Hk. split; [done|]. apply Hvr.
  - destruct (deferred_shutdown (kvdata s)) as (Hc & Hp & _).
    split; [done|]. intros _. rewrite Hp, Hb, Hk. split; [done|]. apply Hvr.
  - split; [congruence | done].
Qed.

(** *** Which vbuckets have a routine *)

Lemma scatterMutation_opens m t k k' v :
  scatterMutation m t k = Done k' -> is_Some (vrs k' !! v) ->
  is_Some (vrs k !! v) \/ opened_by (Mutch m) = Some v.
Proof.
  unfold scatterMutation, opened_by. intros E Hv.
  destruct (ev_Opcode m).
  - destruct (ev_Status m); simpl in E; try (injection E as <-; by left).
    destruct (vrs k !! ev_VBucket m) eqn:El; [injection E as <-; by left|].
    destruct (Latest (ev_FailoverLog m)) as [[vbuuid sq] [err|]]; [done|].
    injection E as <-. simpl in Hv. rewrite lookup_insert in Hv.
    case_decide; [right; by subst | by left].
  - destruct (vrs k !! ev_VBucket m) eqn:El; [|injection E as <-; by left].
    destruct (is_SUCCESS (ev_Status m)); simpl in E;
      [|injection E as <-; by left].
    injection E as <-. simpl in Hv. rewrite lookup_delete in Hv.
    case_decide; [by destruct Hv | by left].
  - destruct (vrs k !! ev_VBucket m) eqn:El; injection E as <-; [|by left].
    simpl in Hv. rewrite lookup_insert in Hv. case_decide; [subst|]; by left.
  - destruct (vrs k !! ev_VBucket m) eqn:El; injection E as <-; [|by left].
    simpl in Hv. rewrite lookup_insert in Hv. case_decide; [subst|]; by left.
  - destruct (vrs k !! ev_VBucket m) eqn:El; injection E as <-; [|by left].
    simpl in Hv. rewrite lookup_insert in Hv. case_decide; [subst|]; by left.
  - destruct (vrs k !! ev_VBucket m) eqn:El; injection E as <-; [|by left].
    simpl in Hv. rewrite lookup_insert in Hv. case_decide; [subst|]; by left.
  - injection E as <-. by left.
Qed.

Lemma handle_command_vrs_dom msg s v :
  is_Some (vrs (kvdata (step_state (handle_command msg s))) !! v) ->
  is_Some (vrs (kvdata s) !! v).
Proof.
  unfold handle_command.
  assert (Hb : forall call k0, vrs k0 = vrs (kvdata s) ->
            is_Some (vrs (broadcast call k0) !! v) -> is_Some (vrs (kvdata s) !! v)).
  { intros call k0 E. rewrite lookup_broadcast, E. by rewrite fmap_is_Some. }
  destruct (msg_byte msg 0) as [cmd|]; [|done].
  destruct (cmd =? kvCmdAddEngines).
  { destruct (msg_chan msg 3); [|done]. destruct (msg_engines msg 1); [|done].
    destruct (msg_endpoints msg 2); simpl; [|done]. by apply Hb. }
  destruct (cmd =? kvCmdDelEngines).
  { destruct (msg_keys msg 1); [|done].
    destruct (msg_chan msg 2); simpl; [|done]. by apply (Hb _ (kvdata s)). }
  destruct (cmd =? kvCmdTs).
  { destruct (msg_ts msg 1); [|done]. by destruct (msg_chan msg 2). }
  destruct (cmd =? kvCmdGetStats).
  { destruct (msg_chan msg 1); simpl; [|done]. by apply Hb. }
  destruct (cmd =? kvCmdClose); [|done].
  by destruct (msg_chan msg 1).
Qed.

Lemma scatter_step_opens c s v :
  is_Some (vrs (kvdata (step_state (scatter_step c s))) !! v) ->
  is_Some (vrs (kvdata s) !! v) \/ opened_by c = Some v.
Proof.
  destruct c as [m| |msg]; simpl.
  - destruct (scatterMutation m (ts s) (kvdata s)) as [k'|] eqn:E; [|by left].
    intros Hv. apply (scatterMutation_opens m (ts s) (kvdata s) k'); [done|].
    by case_decide.
  - by left.
  - intros Hv. left. by eapply handle_command_vrs_dom.
Qed.

(** The data path never has a routine for a vbucket whose stream was not
    successfully requested: after any schedule, a vbucket with a routine in
    the map either had one at the start or is the vbucket of a
    [StreamRequest] with status [SUCCESS] among the inputs. *)
Theorem routines_only_for_opened_vbuckets (inputs : list select_case)
    (s : Scatter) (v : Z) :
  is_Some (vrs (kvdata (state_of (scatter_loop inputs s))) !! v) ->
  is_Some (vrs (kvdata s) !! v) \/ v ∈ opened inputs.
Proof.
  revert s. induction inputs as [|c rest IH]; intros s; [by left|].
  rewrite scatter_loop_cons. intros Hv.
  assert (Hstep : is_Some (vrs (kvdata (step_state (scatter_step c s))) !! v) ->
                  is_Some (vrs (kvdata s) !! v) \/ v ∈ opened (c :: rest)).
  { intros Hs. destruct (scatter_step_opens c s v Hs) as [|Ho]; [by left|].
    right. unfold opened. simpl. rewrite Ho. by left. }
  destruct (scatter_step c s) as [s1|s1|s1 r] eqn:Es; simpl in *;
    [|by apply Hstep | by apply Hstep].
  destruct (IH s1 Hv) as [Hs1|Hin].
  - by apply Hstep.
  - right. unfold opened in *. simpl. destruct (opened_by c); [by right | done].
Qed.

End DataPath.

Lemma data_event_goes_to_its_routine_witness :
  exists k', @scatterMutation sample (Mutation 0 5) sample_ts sample_running = Done k' /\
             feed_posts k' = feed_posts sample_running.
Proof.
  destruct (@data_event_goes_to_its_routine sample (Mutation 0 5) sample_ts
              sample_running (or_introl eq_refl)) as (k' & E & Hp & _).
  exists k'. split; [exact E | exact Hp].
Defined.

Lemma failed_StreamRequest_creates_nothing_witness :
  vrs (post (PostStreamRequest (bucket sample_kvdata) (kvaddr sample_kvdata)
               (StreamRequest 3 ROLLBACK)) sample_kvdata) = vrs sample_kvdata.
Proof.
  refine (proj2 (@failed_StreamRequest_creates_nothing sample
                   (StreamRequest 3 ROLLBACK) sample_ts sample_kvdata eq_refl _)).
  discriminate.
Defined.

Lemma runScatter_shutdown_witness :
  finch_closed (kvdata (state_of (@runScatter sample sample_ts [MutchClosed]
                                    sample_kvdata))) = true.
Proof.
  destruct (@runScatter_shutdown sample sample_ts [MutchClosed] sample_kvdata eq_refl)
    as [Hc _].
  exact Hc.
Defined.

Lemma routines_only_for_opened_vbuckets_witness :
  0 ∈ @opened sample [Mutch (StreamRequest 0 SUCCESS)].
Proof.
  destruct (@routines_only_for_opened_vbuckets sample
              [Mutch (StreamRequest 0 SUCCESS)]
              (@start sample sample_ts sample_kvdata) 0) as [Hs|Ho].
  - vm_compute. eauto.
  - destruct Hs as [vr Hvr]. vm_compute in Hvr. discriminate Hvr.
  - exact Ho.
Defined.

End DataPathProps.

(** ** Layout helpers *)

Module LayoutProps.

Import GoInt Json JsonFacts Planner PlanFile PlanFileFacts Layout.

(** [findIndexerByNodeId] returns the first node of the list with the given
    id, and [nil] exactly when no node has it. *)
Theorem findIndexerByNodeId_first (indexers : list IndexerNode) (nodeId : string) :
  match findIndexerByNodeId indexers nodeId with
  | Some node =>
      exists pre post, indexers = pre ++ node :: post /\ NodeId node = nodeId /\
                       forall n, n ∈ pre -> NodeId n <> nodeId
  | None => forall n, n ∈ indexers -> NodeId n <> nodeId
  end.
Proof.
  induction indexers as [|node rest IH]; simpl.
  - intros n Hn. by apply elem_of_nil in Hn.
  - destruct (String.eqb_spec (NodeId node) nodeId) as [E|E].
    + exists [], rest. repeat split; [done|]. intros n Hn. by apply elem_of_nil in Hn.
    + destruct (findIndexerByNodeId rest nodeId) as [found|].
      * destruct IH as (pre & post & -> & Hid & Hpre).
        exists (node :: pre), post. repeat split; [done|].
        intros n [->|Hn]%elem_of_cons; [done | by apply Hpre].
      * intros n [->|Hn]%elem_of_cons; [done | by apply IH].
Qed.

(** [findTopologyByBucket] returns the first topology of the given bucket,
    and [nil] exactly when there is none. *)
Theorem findTopologyByBucket_first (topologies : list IndexTopology)
    (bucket : string) :
  match findTopologyByBucket topologies bucket with
  | Some topology =>
      exists pre post, topologies = pre ++ topology :: post /\
                       top_Bucket topology = bucket /\
                       forall t, t ∈ pre -> top_Bucket t <> bucket
  | None => forall t, t ∈ topologies -> top_Bucket t <> bucket
  end.
Proof.
  induction topologies as [|topology rest IH]; simpl.
  - intros t Ht. by apply elem_of_nil in Ht.
  - destruct (String.eqb_spec (top_Bucket topology) bucket) as [E|E].
    + exists [], rest. repeat split; [done|]. intros t Ht. by apply elem_of_nil in Ht.
    + destruct (findTopologyByBucket rest bucket) as [found|].
      * destruct IH as (pre & post & -> & Hid & Hpre).
        exists (topology :: pre), post. repeat split; [done|].
        intros t [->|Ht]%elem_of_cons; [done | by apply Hpre].
      * intros t [->|Ht]%elem_of_cons; [done | by apply IH].
Qed.

(** [findIndexInstId] answers with the first instance of the first
    definition entry that has the given id and at least one instance;
    entries with that id but no instance are passed over.  It fails, with
    instance id 0, exactly when every entry with that id is without
    instance. *)
Theorem findIndexInstId_first (topology : IndexTopology) (defnId : Z) :
  match findIndexInstId topology defnId with
  | (instId, None) =>
      exists pre d inst insts post,
        Definitions topology = pre ++ d :: post /\ dist_DefnId d = defnId /\
        Instances d = inst :: insts /\ instId = dist_InstId inst /\
        forall d', d' ∈ pre -> dist_DefnId d' = defnId -> Instances d' = []
  | (instId, Some _) =>
      instId = 0 /\
      forall d, d ∈ Definitions topology -> dist_DefnId d = defnId -> Instances d = []
  end.
Proof.
  unfold findIndexInstId. generalize (Definitions topology). intros defns.
  assert (H : match findIndexInstId_loop defns defnId with
              | Some instId =>
                  exists pre d inst insts post,
                    defns = pre ++ d :: post /\ dist_DefnId d = defnId /\
                    Instances d = inst :: insts /\ instId = dist_InstId inst /\
                    forall d', d' ∈ pre -> dist_DefnId d' = defnId -> Instances d' = []
              | None => forall d, d ∈ defns -> dist_DefnId d = defnId -> Instances d = []
              end).
  { induction defns as [|d rest IH]; simpl.
    - intros d Hd. by apply elem_of_nil in Hd.
    - assert (Hskip : (dist_DefnId d = defnId -> Instances d = []) ->
        match findIndexInstId_loop rest defnId with
        | Some instId =>
            exists pre d0 inst insts post,
              d :: rest = pre ++ d0 :: post /\ dist_DefnId d0 = defnId /\
              Instances d0 = inst :: insts /\ instId = dist_InstId inst /\
              forall d', d' ∈ pre -> dist_DefnId d' = defnId -> Instances d' = []
        | None => forall d0, d0 ∈ d :: rest -> dist_DefnId d0 = defnId -> Instances d0 = []
        end).
      { intros Hd. destruct (findIndexInstId_loop rest defnId) as [instId|].
        - destruct IH as (pre & d0 & inst & insts & post & -> & H1 & H2 & H3 & H4).
          exists (d :: pre), d0, inst, insts, post. repeat split; try done.
          intros d' [->|Hin]%elem_of_cons; [done | by apply H4].
        - intros d0 [->|Hin]%elem_of_cons; [done | by apply IH]. }
      destruct (Z.eqb_spec (dist_DefnId d) defnId) as [E|E].
      + destruct (Instances d) as [|inst insts] eqn:Ei.
        * by apply Hskip.
        * exists [], d, inst, insts, rest. repeat split; try done.
          intros d' Hd'. by apply elem_of_nil in Hd'.
      + by apply Hskip. }
  destruct (findIndexInstId_loop defns defnId); [exact H | by split].
Qed.

(** [IndexState.String] names the seven states from [INDEX_STATE_CREATED]
    to [INDEX_STATE_ERROR] by pairwise distinct names, none of which is
    "INDEX_STATE_UNKNOWN"; every other value, [INDEX_STATE_NIL] among them,
    is printed as "INDEX_STATE_UNKNOWN". *)
Theorem IndexState_String_names :
  (forall s1 s2, 0 <= s1 <= 6 -> 0 <= s2 <= 6 ->
     IndexState_String s1 = IndexState_String s2 -> s1 = s2)
  /\ (forall s, 0 <= s <= 6 -> IndexState_String s <> "INDEX_STATE_UNKNOWN")
  /\ (forall s, ~ (0 <= s <= 6) -> IndexState_String s = "INDEX_STATE_UNKNOWN")
  /\ IndexState_String INDEX_STATE_NIL = "INDEX_STATE_UNKNOWN".
Proof.
  assert (Hcases : forall s, 0 <= s <= 6 ->
            s = 0 \/ s = 1 \/ s = 2 \/ s = 3 \/ s = 4 \/ s = 5 \/ s = 6) by (intros; lia).
  repeat apply conj.
  - intros s1 s2 H1 H2.
    destruct (Hcases s1 H1) as [->|[->|[->|[->|[->|[->| ->]]]]]];
    destruct (Hcases s2 H2) as [->|[->|[->|[->|[->|[->| ->]]]]]];
      vm_compute; intros E; first [reflexivity | discriminate E].
  - intros s Hs.
    destruct (Hcases s Hs) as [->|[->|[->|[->|[->|[->| ->]]]]]]; discriminate.
  - intros s Hs. unfold IndexState_String, INDEX_STATE_CREATED, INDEX_STATE_READY,
      INDEX_STATE_INITIAL, INDEX_STATE_CATCHUP, INDEX_STATE_ACTIVE,
      INDEX_STATE_DELETED, INDEX_STATE_ERROR.
    repeat match goal with
           | |- context [s =? ?k] => destruct (Z.eqb_spec s k); [lia|]
           end.
    reflexivity.
  - reflexivity.
Qed.

Lemma IndexState_String_names_witness :
  IndexState_String 9 = "INDEX_STATE_UNKNOWN".
Proof.
  destruct IndexState_String_names as (_ & _ & Hu & _). apply Hu. lia.
Defined.

Section Codec.

Variable ToValidUTF8 : string -> string.

(** An index definition whose values the types admit is read back unchanged
    by [UnmarshallIndexDefn] from what [MarshallIndexDefn] wrote; a nil
    definition is written as [null] and read back as the zero definition. *)
Theorem UnmarshallIndexDefn_MarshallIndexDefn (d : Common.IndexDefn) :
  ok_IndexDefn ToValidUTF8 d ->
  UnmarshallIndexDefn (fst (MarshallIndexDefn ToValidUTF8 (Some d))) = (Some d, None)
  /\ snd (MarshallIndexDefn ToValidUTF8 (Some d)) = None
  /\ UnmarshallIndexDefn (fst (MarshallIndexDefn ToValidUTF8 None))
     = (Some Common.zero_IndexDefn, None).
Proof.
  intros Hok. split; [|split; reflexivity].
  pose proof (IndexDefn_roundtrip ToValidUTF8 d Hok) as R.
  assert (exists ms, enc_IndexDefn ToValidUTF8 d = JObj ms) as [ms E]
    by (eexists; reflexivity).
  unfold MarshallIndexDefn. cbn [fst]. rewrite E in R |- *.
  unfold UnmarshallIndexDefn. by rewrite R.
Qed.

End Codec.

Lemma ok_defn_two_keys : ok_IndexDefn id Common.defn_two_keys.
Proof.
  unfold ok_IndexDefn, ok_u64, ok_str, max_uint64. simpl.
  repeat split; try lia; repeat constructor.
Qed.

Lemma UnmarshallIndexDefn_MarshallIndexDefn_witness :
  UnmarshallIndexDefn (fst (MarshallIndexDefn id (Some Common.defn_two_keys)))
  = (Some Common.defn_two_keys, None).
Proof.
  destruct (UnmarshallIndexDefn_MarshallIndexDefn id Common.defn_two_keys
              ok_defn_two_keys) as (Hr & _).
  exact Hr.
Defined.

End LayoutProps.

(** ** Preparing a rebalance *)

Module RebalanceProps.

Import GoInt GoIntFacts Planner PlannerFacts Rebalance.

Lemma node_ids_snoc placement node :
  node_ids (placement ++ [node]) = <[NodeUUID node := NodeId node]> (node_ids placement).
Proof. unfold node_ids. by rewrite foldl_snoc. Qed.

Lemma node_ids_lookup placement u :
  node_ids placement !! u =
  NodeId <$> last (filter (fun n => NodeUUID n = u) placement).
Proof.
  induction placement as [|node placement IH] using rev_ind; [done|].
  rewrite node_ids_snoc, filter_app, lookup_insert.
  rewrite (filter_cons (fun n => NodeUUID n = u) node []), filter_nil.
  destruct (decide (NodeUUID node = u)) as [Hd|Hd].
  - by rewrite last_snoc.
  - by rewrite app_nil_r.
Qed.

Lemma last_filter_Some (placement : list IndexerNode) u :
  is_Some (last (filter (fun n => NodeUUID n = u) placement)) <->
  exists n, n ∈ placement /\ NodeUUID n = u.
Proof.
  split.
  - intros [n Hn]. exists n. apply last_Some_elem_of in Hn.
    by apply list_elem_of_filter in Hn as [? ?].
  - intros (n & Hin & Hu).
    assert (n ∈ filter (fun n => NodeUUID n = u) placement) as Hf
      by (by apply list_elem_of_filter).
    destruct (filter _ placement) as [|a l] eqn:E; [by apply elem_of_nil in Hf|].
    rewrite last_cons. destruct (last l); eauto.
Qed.

(** The node ids that [ExecuteRebalanceInternal] hands to the planner for
    the nodes to eject: when every ejected UUID belongs to a node of the
    plan, one node id per ejected node, in order, each that of the last node
    of the plan with that UUID; otherwise the error names the first ejected
    UUID that no node of the plan has. *)
Theorem deleteNodes_resolves (plan : Plan) (ejectNodes : list string) :
  match deleteNodes_of plan ejectNodes with
  | inl deleteNodes =>
      length deleteNodes = length ejectNodes /\
      forall i u, ejectNodes !! i = Some u ->
        exists n, last (filter (fun n => NodeUUID n = u) (Placement plan)) = Some n /\
                  deleteNodes !! i = Some (NodeId n)
  | inr err =>
      exists pre u post,
        ejectNodes = pre ++ u :: post /\
        (forall n, n ∈ Placement plan -> NodeUUID n <> u) /\
        (forall u', u' ∈ pre -> exists n, n ∈ Placement plan /\ NodeUUID n = u') /\
        err = ("Unable to find indexer node with node UUID " ++ u)%string
  end.
Proof.
  unfold deleteNodes_of.
  induction ejectNodes as [|u rest IH]; cbn [resolve_loop].
  - split; [done|]. intros i u Hi. by rewrite lookup_nil in Hi.
  - rewrite node_ids_lookup.
    destruct (last (filter (fun n => NodeUUID n = u) (Placement plan))) as [n|] eqn:El;
      cbn [fmap option_fmap option_map].
    + destruct (resolve_loop (node_ids (Placement plan)) rest) as [ids|err].
      * destruct IH as [Hlen Hall]. split; [simpl; lia|].
        intros [|i] u' Hi; simpl in Hi.
        -- injection Hi as <-. by exists n.
        -- by apply Hall.
      * destruct IH as (pre & u' & post & -> & Hno & Hpre & ->).
        exists (u :: pre), u', post. repeat split; try done.
        intros u'' [->|Hin]%elem_of_cons; [|by apply Hpre].
        apply last_filter_Some. by rewrite El.
    + exists [], u, rest. repeat split; try done.
      * intros n Hn Hu.
        assert (is_Some (last (filter (fun n => NodeUUID n = u) (Placement plan)))) as [? Hs]
          by (apply last_filter_Some; eauto).
        congruence.
      * intros u' Hu'. by apply elem_of_nil in Hu'.
Qed.

Lemma set_Hosts_same x : Hosts x = [] -> set_Hosts [] x = x.
Proof. destruct x. simpl. by intros ->. Qed.

(** [filterPinnedIndexes] returns, in order and with their hosts cleared,
    exactly the indexes that are not pinned, or whose initial node is being
    deleted, or all of them when unpinning is allowed; every returned index
    has no host, and the indexes it does not return are left as they were. *)
Theorem filterPinnedIndexes_returns_released (allowUnpin : bool)
    (indexes : list IndexUsage) :
  let (updated, result) := filterPinnedIndexes allowUnpin indexes in
  result = set_Hosts [] <$> List.filter (released allowUnpin) indexes /\
  (forall x, x ∈ result -> Hosts x = []) /\
  length updated = length indexes /\
  (forall i x, indexes !! i = Some x ->
     updated !! i = Some (if released allowUnpin x then set_Hosts [] x else x)) /\
  (allowUnpin = true -> result = set_Hosts [] <$> indexes).
Proof.
  unfold filterPinnedIndexes.
  assert (Hres : List.filter (fun index => (length (Hosts index) =? 0)%nat)
                   (unpin allowUnpin <$> indexes) =
                 set_Hosts [] <$> List.filter (released allowUnpin) indexes).
  { induction indexes as [|x rest IH]; [done|].
    cbn [fmap list_fmap List.filter]. fold (fmap (M:=list) (unpin allowUnpin) rest).
    rewrite IH. unfold unpin, released.
    destruct (allowUnpin || from_option h_delete false (initialNode x)); [done|].
    cbn [orb]. destruct (Hosts x) as [|h hs] eqn:E; cbn [length Nat.eqb fmap list_fmap].
    - f_equal. symmetry. by apply set_Hosts_same.
    - done. }
  rewrite Hres. split; [done|]. split; [|split; [|split]].
  - intros x (y & -> & _)%list_elem_of_fmap. done.
  - by rewrite length_fmap.
  - intros i x Hi. rewrite list_lookup_fmap, Hi. cbn [fmap option_fmap option_map].
    f_equal. unfold unpin, released.
    destruct (allowUnpin || from_option h_delete false (initialNode x)); [done|].
    cbn [orb]. destruct (Hosts x) as [|h hs] eqn:E; cbn [length Nat.eqb]; [|done].
    symmetry. by apply set_Hosts_same.
  - intros ->. f_equal. clear Hres.
    induction indexes as [|x rest IH]; [done|]. cbn [List.filter].
    unfold released at 1. cbn [orb]. by f_equal.
Qed.

Section Sizing.

Context `{SizingMethod} `{Runtime}.






End Sizing.



End RebalanceProps.

(** ** Transfer tokens and replicas, further *)

Module PlannerProps.

Import GoInt GoIntFacts Planner PlannerFacts Rebalance.

Section Tokens.

Variables (masterId : string) (change : TopologyChange) (uuids : nat -> string).

Lemma genTransferToken_indexes_panic indexer index indexes :
  index ∈ indexes -> initialNode index = None ->
  forall st, exists r,
    genTransferToken_indexes masterId change uuids indexer indexes st = Panic r.
Proof.
  intros Hin Hnil. induction indexes as [|x rest IH]; [by apply elem_of_nil in Hin|].
  intros st. cbn [genTransferToken_indexes].
  apply elem_of_cons in Hin as [<-|Hin].
  - unfold genTransferToken_index. rewrite Hnil. eauto.
  - destruct (genTransferToken_index masterId change uuids indexer x st) as [st1|r];
      [by apply IH | eauto].
Qed.

Lemma genTransferToken_nodes_panic placement indexer index :
  indexer ∈ placement -> index ∈ Indexes indexer -> initialNode index = None ->
  forall st, exists r,
    genTransferToken_nodes masterId change uuids placement st = Panic r.
Proof.
  intros Hin Hx Hnil. induction placement as [|n rest IH]; [by apply elem_of_nil in Hin|].
  intros st. cbn [genTransferToken_nodes].
  apply elem_of_cons in Hin as [<-|Hin].
  - destruct (genTransferToken_indexes_panic indexer index _ Hx Hnil st) as [r ->].
    eauto.
  - destruct (genTransferToken_indexes masterId change uuids n (Indexes n) st)
      as [st1|r]; [by apply IH | eauto].
Qed.

End Tokens.

(** A solution that hosts an index without initial node, as an index built
    from a spec is, makes [genTransferToken] panic: no token map is
    returned. *)
Theorem genTransferToken_nil_initialNode_panics (solution : Solution)
    (masterId : string) (change : TopologyChange) (uuids : nat -> string)
    (indexer : IndexerNode) (index : IndexUsage) :
  indexer ∈ sol_Placement solution -> index ∈ Indexes indexer ->
  initialNode index = None ->
  exists r, genTransferToken solution masterId change uuids = Panic r.
Proof.
  intros Hn Hx Hnil. unfold genTransferToken.
  destruct (genTransferToken_nodes_panic masterId change uuids _ _ _ Hn Hx Hnil
              (∅, 0%nat)) as [r ->].
  eauto.
Qed.

(** On a solution read from the cluster [genTransferToken] returns a token
    map whatever identifiers are generated, distinct or not, and the map is
    this one: under each identifier drawn it holds the token of the last
    moved index that drew it, and it holds nothing else.  So every moved
    index that is the last to draw its identifier has its token in the map,
    an index whose identifier is drawn again later has lost its token, and
    there are never more tokens than moved indexes. *)
Theorem genTransferToken_any_identifiers (solution : Solution)
    (masterId : string) (change : TopologyChange) (uuids : nat -> string) :
  from_cluster solution ->
  exists tokens,
    genTransferToken solution masterId change uuids = Done tokens /\
    (size tokens <= length (moved solution))%nat /\
    forall id tok,
      tokens !! id = Some tok <->
      exists j p, moved solution !! j = Some p /\ id = token_id (uuids j) /\
                  tok = token_for masterId change p /\
                  forall j', (j < j' < length (moved solution))%nat ->
                             uuids j' <> uuids j.
Proof.
  intros Hwf. destruct solution as [placement live].
  unfold genTransferToken. cbn [sol_Placement].
  rewrite (genTransferToken_nodes_emit _ _ _ live) by done.
  destruct (emit_last masterId change uuids (moved (mkSolution placement live)))
    as (_ & Hl).
  destruct (emit_size masterId change uuids (moved (mkSolution placement live)))
    as (Hsz & _).
  eexists. split; [reflexivity|]. split; [exact Hsz | exact Hl].
Qed.

Lemma genTransferToken_nil_initialNode_panics_witness :
  exists r,
    genTransferToken
      (mkSolution [mkIndexerNode "n1:9102" "uuid-n1" "" 0 0 0 0
                     [unsized_index 7 (sample_spec 1) 0] false] false)
      "master" (mkTopologyChange "rebalance-1") (fun _ => "id"%string) = Panic r.
Proof.
  apply (genTransferToken_nil_initialNode_panics _ _ _ _
           (mkIndexerNode "n1:9102" "uuid-n1" "" 0 0 0 0
              [unsized_index 7 (sample_spec 1) 0] false)
           (unsized_index 7 (sample_spec 1) 0)).
  - cbn [sol_Placement]. apply list_elem_of_singleton. reflexivity.
  - cbn [Indexes]. apply list_elem_of_singleton. reflexivity.
  - reflexivity.
Defined.

Lemma genTransferToken_any_identifiers_witness :
  exists tokens,
    genTransferToken sample_two_moved "master" (mkTopologyChange "rebalance-1")
      repeated_identifier = Done tokens /\
    tokens !! token_id "" =
      Some (token_for "master" (mkTopologyChange "rebalance-1")
              (mkIndexerNode "n2:9102" "uuid-n2" "" 0 0 0 0
                 [sample_index 1 "idx1"; sample_index 2 "idx2"] false,
               sample_index 2 "idx2")).
Proof.
  destruct (genTransferToken_any_identifiers sample_two_moved "master"
              (mkTopologyChange "rebalance-1") repeated_identifier)
    as (tokens & E & _ & Hl).
  - intros p Hp. apply list_elem_of_In in Hp. simpl in Hp.
    destruct Hp as [<-|[<-|[]]]; split; eexists; reflexivity.
  - exists tokens. split; [exact E|]. apply Hl.
    exists 1%nat. eexists. split; [reflexivity|]. split; [reflexivity|].
    split; [reflexivity|]. intros j' Hj'. simpl in Hj'. lia.
Defined.

Section Sizing.

Context `{SizingMethod} `{Runtime}.

Lemma append_inv_head (p a b : string) : (p ++ a = p ++ b)%string -> a = b.
Proof. induction p as [|c p IH]; simpl; [done|]. intros [= E]. by apply IH. Qed.

Lemma append_longer (p a : string) c : (p ++ String c a)%string <> p.
Proof. induction p as [|c' p IH]; simpl; [done|]. intros [= E]. by apply IH. Qed.

Lemma replica_name_inj spec (i j : Z) :
  replica_name spec i = replica_name spec j -> i = j.
Proof.
  unfold replica_name.
  destruct (Z.eqb_spec i 0) as [->|Hi], (Z.eqb_spec j 0) as [->|Hj]; try done.
  - intros E. symmetry in E. by apply append_longer in E.
  - intros E. by apply append_longer in E.
  - intros E. apply append_inv_head in E. injection E as E.
    by apply DataPathProps.Itoa_inj in E.
Qed.

(** The replicas that [indexUsageFromSpec] builds for one spec (one whose
    result slice can be allocated) are told apart by their name, by their
    instance id and by the name in their definition: no two of them share
    any of these. *)
Theorem replicas_are_told_apart (spec : IndexSpec) (uuid : Z) :
  allocatable (spec_Replica spec) ->
  exists instances,
    indexUsageFromSpec (Some uuid) spec = Done (Some <$> instances, None) /\
    forall i j x y, instances !! i = Some x -> instances !! j = Some y ->
      (Name x = Name y \/ InstId x = InstId y \/
       (Common.Name <$> Defn x) = (Common.Name <$> Defn y)) ->
      i = j.
Proof.
  intros Hr. exists (replicas_of uuid spec).
  split.
  - by apply indexUsageFromSpec_allocatable.
  - intros i j x y Hx Hy Heq. unfold replicas_of in Hx, Hy.
    rewrite list_lookup_fmap in Hx, Hy.
    destruct (seq 0 (Z.to_nat (spec_Replica spec)) !! i) as [i'|] eqn:Hi; [|done].
    destruct (seq 0 (Z.to_nat (spec_Replica spec)) !! j) as [j'|] eqn:Hj; [|done].
    apply lookup_seq in Hi as [-> _]. apply lookup_seq in Hj as [-> _].
    cbn in Hx, Hy. injection Hx as <-. injection Hy as <-.
    unfold new_index, set_estimates, unsized_index in Heq. cbn in Heq.
    destruct Heq as [E|[E|E]].
    + apply replica_name_inj in E. lia.
    + lia.
    + injection E as E. apply replica_name_inj in E. lia.
Qed.

End Sizing.

Lemma replicas_are_told_apart_witness :
  exists instances,
    @indexUsageFromSpec sample_sizing sample_runtime (Some 7) (sample_spec 3) =
    Done (Some <$> instances, None).
Proof.
  destruct (@replicas_are_told_apart sample_sizing sample_runtime (sample_spec 3) 7)
    as (instances & E & _).
  - apply allocatable_sample. simpl. lia.
  - exists instances. exact E.
Defined.

End PlannerProps.

(** ** Plans in files, further *)

Module PlanFileProps.

Import GoInt Planner Json PlanFile PlanFileFacts.

Section Codec.

Variable ToValidUTF8 : string -> string.





End Codec.


End PlanFileProps.
